(** * gores-mapgen: the configuration migration script and the radius formulas

    A shallow embedding of [scripts/update_gen_config.py] and of
    [testing_formulas.py].

    Python objects live in a store: a [list] or a [dict] is a reference
    to a cell of the heap, so that aliasing and in-place update
    ([new_json[k] = v]) are visible.  Exceptions are results.  Numbers
    are [int] (unbounded, [Z]) and [float]; a float is idealised as an
    exact rational kept in lowest terms, so rounding, overflow, NaN and
    the infinities of binary64 are outside the model. *)

From Stdlib Require Import ZArith QArith Qround Lia.
From stdpp Require Import base list strings gmap pretty.

#[local] Set Warnings "-clear-no-such-hyp".

Local Open Scope string_scope.
Local Open Scope list_scope.
Local Open Scope Z_scope.

(** ** Values, objects, the store *)

Abbreviation loc := nat.

Inductive value :=
| VNone
| VBool (b : bool)
| VInt (n : Z)
| VFloat (x : Q)
| VStr (s : string)
| VRef (l : loc).

(** A mutable object.  A dict keeps its entries in insertion order; its
    keys are strings, as in every dict made by [json.load]. *)
Inductive object :=
| OList (items : list value)
| ODict (entries : list (string * value)).

(** A JSON document, as text on disk denotes it. *)
#[warnings="-register-all"]
Inductive json :=
| JNull
| JBool (b : bool)
| JInt (n : Z)
| JFloat (x : Q)
| JStr (s : string)
| JArr (items : list json)
| JObj (members : list (string * json)).

(** What a file holds: JSON text, or text that does not parse. *)
Inductive fcontent :=
| JsonText (j : json)
| RawText (s : string).

Inductive exn :=
| TypeError
| IndexError
| KeyError
| ZeroDivisionError
| AttributeError
| ValueError
| FileNotFoundError
| FileExistsError
| JSONDecodeError
| SystemError
| SystemExit (code : Z).

Record state := mkState {
  heap : list object;
  files : gmap string fcontent;
  logs : list string;
  stdout : list string
}.

Definition set_heap (h : list object) (s : state) : state :=
  mkState h (files s) (logs s) (stdout s).
Definition set_files (f : gmap string fcontent) (s : state) : state :=
  mkState (heap s) f (logs s) (stdout s).

(** ** The state and exception monad *)

Inductive result (A : Type) :=
| Ok (a : A)
| Raise (e : exn).
Arguments Ok {A} a.
Arguments Raise {A} e.

Definition M (A : Type) : Type := state -> result A * state.

Definition ret {A} (a : A) : M A := fun s => (Ok a, s).
Definition raise {A} (e : exn) : M A := fun s => (Raise e, s).
Definition bind {A B} (m : M A) (k : A -> M B) : M B :=
  fun s => match m s with
           | (Ok a, s') => k a s'
           | (Raise e, s') => (Raise e, s')
           end.

Declare Scope py_scope.
Delimit Scope py_scope with py.
Notation "x <- m ;; k" := (bind m (fun x => k))
  (at level 100, m at next level, right associativity) : py_scope.
Notation "m ;;; k" := (bind m (fun _ => k))
  (at level 100, right associativity) : py_scope.
Local Open Scope py_scope.

(** [[f(x) for x in xs]] over an already taken snapshot of the elements. *)
Definition traverse {A B} (f : A -> M B) : list A -> M (list B) :=
  fix go (xs : list A) : M (list B) :=
    match xs with
    | [] => ret []
    | x :: r => y <- f x ;; ys <- go r ;; ret (y :: ys)
    end.

(** [for x in xs: body] *)
Fixpoint for_each {A} (f : A -> M unit) (xs : list A) : M unit :=
  match xs with
  | [] => ret tt
  | x :: r => f x ;;; for_each f r
  end.

(** ** Store primitives *)

Definition alloc (o : object) : M value :=
  fun s => (Ok (VRef (length (heap s))), set_heap (heap s ++ [o]) s).

(** The object a value refers to, if it is a reference. *)
Definition deref (h : list object) (v : value) : option object :=
  match v with
  | VRef l => h !! l
  | _ => None
  end.

Definition is_ref (v : value) : bool :=
  match v with VRef _ => true | _ => false end.

(** A reference to no cell cannot arise in Python; the model reports it
    as [SystemError] and no theorem relies on that branch. *)
Definition load_obj {A} (v : value) (other : M A) (k : object -> M A) : M A :=
  fun s => match v with
           | VRef l => match heap s !! l with
                       | Some o => k o s
                       | None => (Raise SystemError, s)
                       end
           | _ => other s
           end.

Definition store_obj (l : loc) (o : object) : M unit :=
  fun s => (Ok tt, set_heap (<[l := o]> (heap s)) s).

(** ** Ordered dict entries *)

Fixpoint assoc_get {V} (k : string) (d : list (string * V)) : option V :=
  match d with
  | [] => None
  | (k', v) :: r => if String.eqb k k' then Some v else assoc_get k r
  end.

(** [d[k] = v]: an existing key keeps its position, a new key goes last. *)
Fixpoint assoc_set {V} (k : string) (v : V) (d : list (string * V))
  : list (string * V) :=
  match d with
  | [] => [(k, v)]
  | (k', v') :: r =>
      if String.eqb k k' then (k', v) :: r else (k', v') :: assoc_set k v r
  end.

(** [d.update(items)]: the pairs are set one after the other. *)
Definition dict_update {V} (d items : list (string * V)) : list (string * V) :=
  fold_left (fun d kv => assoc_set (fst kv) (snd kv) d) items d.

(** [dict(items)] *)
Definition dict_of_items {V} (items : list (string * V)) : list (string * V) :=
  dict_update [] items.

(** [items.insert(position, x)] with Python's clamping of the index. *)
Definition list_insert_at {A} (items : list A) (position : Z) (x : A) : list A :=
  let n := Z.of_nat (length items) in
  let i := if position <? 0 then Z.max 0 (position + n) else Z.min position n in
  take (Z.to_nat i) items ++ x :: drop (Z.to_nat i) items.

(** ** Numbers *)

Inductive num :=
| NInt (n : Z)
| NFloat (x : Q).

(** [bool] is a subclass of [int]. *)
Definition as_num (v : value) : option num :=
  match v with
  | VBool b => Some (NInt (if b then 1 else 0))
  | VInt n => Some (NInt n)
  | VFloat x => Some (NFloat x)
  | _ => None
  end.

Definition of_num (a : num) : value :=
  match a with NInt n => VInt n | NFloat x => VFloat x end.

Definition num_Q (a : num) : Q :=
  match a with NInt n => inject_Z n | NFloat x => x end.

Definition mkfloat (x : Q) : num := NFloat (Qred x).

Definition num_add (a b : num) : num :=
  match a, b with
  | NInt x, NInt y => NInt (x + y)
  | _, _ => mkfloat (num_Q a + num_Q b)
  end.

Definition num_sub (a b : num) : num :=
  match a, b with
  | NInt x, NInt y => NInt (x - y)
  | _, _ => mkfloat (num_Q a - num_Q b)
  end.

Definition num_mul (a b : num) : num :=
  match a, b with
  | NInt x, NInt y => NInt (x * y)
  | _, _ => mkfloat (num_Q a * num_Q b)
  end.

Definition num_is_zero (a : num) : bool :=
  match a with NInt n => n =? 0 | NFloat x => Qnum x =? 0 end.

(** [a / b], true division: always a float. *)
Definition num_truediv (a b : num) : result num :=
  if num_is_zero b then Raise ZeroDivisionError
  else Ok (mkfloat (num_Q a / num_Q b)).

(** ** Python operations used by the script *)

Definition char_strings (s : string) : list value :=
  map (fun c => VStr (String c EmptyString)) (String.list_ascii_of_string s).

(** [iter(v)], run to the end: list elements, dict keys, characters. *)
Definition py_iter (v : value) : M (list value) :=
  load_obj v
    (match v with
     | VStr s => ret (char_strings s)
     | _ => raise TypeError
     end)
    (fun o => match o with
              | OList xs => ret xs
              | ODict d => ret (map (fun kv => VStr (fst kv)) d)
              end).

(** [acc + x] inside [sum]: the accumulator is a number throughout. *)
Definition sum_step (acc : result num) (x : value) : result num :=
  match acc with
  | Ok a => match as_num x with
            | Some b => Ok (num_add a b)
            | None => Raise TypeError
            end
  | Raise e => Raise e
  end.

Definition sum_values (xs : list value) : result num :=
  fold_left sum_step xs (Ok (NInt 0)).

Definition lift {A} (r : result A) : M A := fun s => (r, s).

(** [sum(v)] *)
Definition py_sum (v : value) : M value :=
  xs <- py_iter v ;;
  a <- lift (sum_values xs) ;;
  ret (of_num a).

(** [a / b] *)
Definition py_truediv (a b : value) : M value :=
  match as_num a, as_num b with
  | Some x, Some y => q <- lift (num_truediv x y) ;; ret (of_num q)
  | _, _ => raise TypeError
  end.

(** [xs[i]] on a sequence of length [length xs]. *)
Definition seq_index {A} (xs : list A) (i : Z) : result A :=
  let n := Z.of_nat (length xs) in
  let j := if i <? 0 then i + n else i in
  if (j <? 0) || (n <=? j) then Raise IndexError
  else match xs !! Z.to_nat j with
       | Some x => Ok x
       | None => Raise IndexError
       end.

(** [v[i]] for an int [i]: an int is never a key of a dict loaded from
    JSON, so subscripting a dict raises [KeyError]. *)
Definition py_getitem (v : value) (i : Z) : M value :=
  load_obj v
    (match v with
     | VStr s => lift (seq_index (char_strings s) i)
     | _ => raise TypeError
     end)
    (fun o => match o with
              | OList xs => lift (seq_index xs i)
              | ODict _ => raise KeyError
              end).

(** [[body(x) for x in iterable]] *)
Definition list_comp (body : value -> M value) (iterable : value) : M value :=
  xs <- py_iter iterable ;;
  ys <- traverse body xs ;;
  alloc (OList ys).

(** [d.get(key, default)]: the attribute is looked up before the default
    is evaluated. *)
Definition dict_get (d : value) (key : string) (dflt : M value) : M value :=
  load_obj d (raise AttributeError)
    (fun o => match o with
              | ODict entries =>
                  dv <- dflt ;;
                  ret (default dv (assoc_get key entries))
              | OList _ => raise AttributeError
              end).

(** [d.copy()]: a shallow copy, a new object with the same entries. *)
Definition py_copy (d : value) : M value :=
  load_obj d (raise AttributeError) alloc.

(** [d[key] = v] with a string key. *)
Definition py_setitem (d : value) (key : string) (v : value) : M unit :=
  load_obj d (raise TypeError)
    (fun o => match o, d with
              | ODict entries, VRef l => store_obj l (ODict (assoc_set key v entries))
              | _, _ => raise TypeError
              end).

(** [d.items()] as a list of pairs; the list is local to its caller. *)
Definition dict_items (d : value) : M (list (string * value)) :=
  load_obj d (raise AttributeError)
    (fun o => match o with
              | ODict entries => ret entries
              | OList _ => raise AttributeError
              end).

(** The state after a line has been logged. *)
Definition logged (msg : string) (s : state) : state :=
  mkState (heap s) (files s) (logs s ++ [msg]) (stdout s).

(** [logger.info(msg)] *)
Definition logger_info (msg : string) : M unit :=
  fun s => (Ok tt, logged msg s).

Definition print (msg : string) : M unit :=
  fun s => (Ok tt, mkState (heap s) (files s) (logs s) (stdout s ++ [msg])).

(** ** scripts/update_gen_config.py *)

Definition insert_at_position (d : value) (key : string) (v : value)
  (position : Z) : M value :=
  items <- dict_items d ;;
  let items := list_insert_at items position (key, v) in
  alloc (ODict (dict_of_items items)).

Definition convert_to_1_0 (old_json : value) : M value :=
  inner_size_probs <- dict_get old_json "inner_size_probs" (alloc (OList [])) ;;
  outer_margin_probs <- dict_get old_json "outer_margin_probs" (alloc (OList [])) ;;
  shift_weights <- dict_get old_json "shift_weights" (alloc (OList [])) ;;
  (* normalize *)
  shift_weights <-
    list_comp (fun w => total <- py_sum shift_weights ;; py_truediv w total)
      shift_weights ;;
  new_json <- py_copy old_json ;;
  values <- list_comp (fun item => py_getitem item 0) inner_size_probs ;;
  probs <- list_comp (fun item => py_getitem item 1) inner_size_probs ;;
  table <- alloc (ODict [("values", values); ("probs", probs)]) ;;
  py_setitem new_json "inner_size_probs" table ;;;
  values <- list_comp (fun item => py_getitem item 0) outer_margin_probs ;;
  probs <- list_comp (fun item => py_getitem item 1) outer_margin_probs ;;
  table <- alloc (ODict [("values", values); ("probs", probs)]) ;;
  py_setitem new_json "outer_margin_probs" table ;;;
  table <- alloc (ODict [("values", VNone); ("probs", shift_weights)]) ;;
  py_setitem new_json "shift_weights" table ;;;
  new_json <- insert_at_position new_json "version" (VStr "1.0") 2 ;;
  logger_info "> updated to version 1.0" ;;;
  ret new_json.

(** ** Files and JSON *)

(** [json.load]: children are built before their container; an object
    with a repeated key keeps the first position and the last value. *)
Fixpoint json_load (j : json) : M value :=
  match j with
  | JNull => ret VNone
  | JBool b => ret (VBool b)
  | JInt n => ret (VInt n)
  | JFloat x => ret (VFloat x)
  | JStr s => ret (VStr s)
  | JArr items =>
      xs <- traverse json_load items ;;
      alloc (OList xs)
  | JObj members =>
      kvs <- traverse (fun kv => v <- json_load (snd kv) ;; ret (fst kv, v)) members ;;
      alloc (ODict (dict_of_items kvs))
  end.

Definition result_map {A B} (f : A -> B) (r : result A) : result B :=
  match r with Ok a => Ok (f a) | Raise e => Raise e end.

Definition mapR {A B} (f : A -> result B) : list A -> result (list B) :=
  fix go (xs : list A) : result (list B) :=
    match xs with
    | [] => Ok []
    | x :: r => match f x with
                | Ok y => result_map (cons y) (go r)
                | Raise e => Raise e
                end
    end.

(** The document [json.dump] writes for [v].  The encoder refuses a
    circular structure; a path through more references than the heap
    has cells repeats one, which is what running out of [depth] means. *)
Fixpoint to_json (depth : nat) (h : list object) (v : value) : result json :=
  match v with
  | VNone => Ok JNull
  | VBool b => Ok (JBool b)
  | VInt n => Ok (JInt n)
  | VFloat x => Ok (JFloat x)
  | VStr s => Ok (JStr s)
  | VRef l =>
      match depth with
      | O => Raise ValueError
      | S depth' =>
          match h !! l with
          | None => Raise SystemError
          | Some (OList xs) => result_map JArr (mapR (to_json depth' h) xs)
          | Some (ODict d) =>
              result_map JObj
                (mapR (fun kv => result_map (pair (fst kv)) (to_json depth' h (snd kv))) d)
          end
      end
  end.

(** [with open(path, 'r') as file: json.load(file)] *)
Definition load_file (path : string) : M value :=
  fun s => match files s !! path with
           | None => (Raise FileNotFoundError, s)
           | Some (RawText _) => (Raise JSONDecodeError, s)
           | Some (JsonText j) => json_load j s
           end.

(** [with open(path, 'w') as file: json.dump(v, file, indent=2)]: opening
    truncates the file; when the encoder raises, the partial output left
    behind is not JSON (it is kept as empty text here). *)
Definition dump_file (v : value) (path : string) : M unit :=
  fun s => match to_json (length (heap s)) (heap s) v with
           | Ok j => (Ok tt, set_files (<[path := JsonText j]> (files s)) s)
           | Raise e => (Raise e, set_files (<[path := RawText ""]> (files s)) s)
           end.

(** [os.rename] on regular files.  The Python documentation: on Windows, if
    [dst] exists a [FileExistsError] is always raised; on Unix, if both are
    files, [dst] is replaced silently. *)
Inductive platform := Posix | Windows.

Definition os_rename (os : platform) (src dst : string) : M unit :=
  fun s => match files s !! src with
           | None => (Raise FileNotFoundError, s)
           | Some c =>
               match os, files s !! dst with
               | Windows, Some _ => (Raise FileExistsError, s)
               | _, _ => (Ok tt, set_files (<[dst := c]> (delete src (files s))) s)
               end
           end.

(** The body of the loop of [main], one path; the specification calls it
    [migrateFile]. *)
Definition migrateFile (os : platform) (path : string) : M unit :=
  logger_info ("loading " +:+ path) ;;;
  config <- load_file path ;;
  (* convert to v1.0 *)
  new_config <- convert_to_1_0 config ;;
  (* backup old config *)
  let backup_path := path +:+ ".bak" in
  os_rename os path backup_path ;;;
  (* write new file to intial path *)
  dump_file new_config path ;;;
  logger_info ("saved " +:+ path).

(** [main], with [sys.argv] and the platform as arguments. *)
Definition main (os : platform) (argv : list string) : M unit :=
  if (length argv <? 2)%nat then
    print "Usage: python converter.py <file1> <file2> ... <fileN>" ;;;
    raise (SystemExit 1)
  else
    for_each (migrateFile os) (drop 1 argv).

(** ** Legacy configurations

    The shape the specification asks of the input ([LegacyConfig]), read
    off a heap [h] and the entries [d] of the input dict. *)








(** The keys of a dict, in iteration order. *)
Abbreviation keys d := (fmap (M:=list) fst d) (only parsing).

(** ** Reading the heap *)

Definition is_dict (h : list object) (v : value) (d : list (string * value)) : Prop :=
  deref h v = Some (ODict d).

Definition is_list (h : list object) (v : value) (xs : list value) : Prop :=
  deref h v = Some (OList xs).




(** The entries of the converted dict, given the three tables. *)
Definition migrated (d : list (string * value)) (t1 t2 t3 : value)
  : list (string * value) :=
  let d1 := assoc_set "inner_size_probs" t1 d in
  let d2 := assoc_set "outer_margin_probs" t2 d1 in
  let d3 := assoc_set "shift_weights" t3 d2 in
  dict_of_items (list_insert_at d3 2 ("version", VStr "1.0")).

(** ** testing_formulas.py *)

(** [a / b] for a divisor that is not zero. *)
Definition num_div (a b : num) : num := mkfloat (num_Q a / num_Q b).

(** [a ** 2] *)
Definition num_square (a : num) : num := num_mul a a.

(** [int(a)]: a float is truncated towards zero. *)
Definition py_int (a : num) : Z :=
  match a with
  | NInt n => n
  | NFloat x => if Qle_bool 0 x then Qfloor x else Qceiling x
  end.

(** [range(n)] *)
Definition range (n : Z) : list Z := map Z.of_nat (seq 0 (Z.to_nat n)).

Definition get_max_radii (size : Z) : list num :=
  let radii := [] in
  let center := num_div (NInt (size - 1)) (NInt 2) in
  let max_corner := py_int (num_sub (num_div (NInt size) (NInt 2)) (NInt 1)) in
  fold_left
    (fun radii corner_depth =>
       (* x = 0, y = x - corner_depth = corner_depth *)
       let dist := num_add (num_square center)
                     (num_square (num_sub center (NInt corner_depth))) in
       radii ++ [dist])
    (range (max_corner + 1)) radii.

Definition get_dist (size corner_depth : Z) : num :=
  let center := num_div (NInt (size - 1)) (NInt 2) in
  num_add (num_square center) (num_square (num_sub center (NInt corner_depth))).

Definition get_max_radii_simpl (size : Z) : list num :=
  map (fun corn_depth => get_dist size corn_depth) (range (size / 2)).

Definition totally_cursed (size : Z) : list num :=
  map (fun corn_depth =>
         num_add (num_square (num_div (NInt (size - 1)) (NInt 2)))
           (num_square (num_sub (num_div (NInt (size - 1)) (NInt 2)) (NInt corn_depth))))
    (range (size / 2)).

Definition wtf_is_going_on (s : num) (d : Z) : num :=
  num_add
    (num_sub (num_div (num_square (num_sub s (NInt 1))) (NInt 2))
       (num_mul (num_sub s (NInt 1)) (NInt d)))
    (num_square (NInt d)).

Definition even_more_cursed (size : Z) : list num :=
  map (fun corn_depth => wtf_is_going_on (NInt size) corn_depth) (range (size / 2)).


Local Close Scope Z_scope.

(** ** Subscripting and the entries of a pair list *)







(** ** Judgements about runs *)

(** [keeps n s s'] says that running from [s] to [s'] changed no cell
    of the heap below [n] and no file. *)
Definition keeps (n : nat) (s s' : state) : Prop :=
  (n <= length (heap s'))%nat
  /\ take n (heap s') = take n (heap s)
  /\ files s' = files s.

(** [frame n m Q]: from a heap of at least [n] cells, [m] keeps the
    cells below [n], and a value it returns satisfies [Q]. *)
Definition frame {A} (n : nat) (m : M A) (Q : A -> Prop) : Prop :=
  forall s, (n <= length (heap s))%nat ->
    keeps n s (snd (m s)) /\ forall a, fst (m s) = Ok a -> Q a.

Definition fresh (n : nat) (v : value) : Prop :=
  exists l, v = VRef l /\ (n <= l)%nat.

Definition any {A} (_ : A) : Prop := True.


(** A non-empty dict. *)
Definition nonempty_dict (h : list object) (v : value) : Prop :=
  exists l k0 v0 rest, v = VRef l /\ h !! l = Some (ODict ((k0, v0) :: rest)).


(** The loading of one member of an object, as in [json_load]. *)
Definition load_member (kv : string * json) : M (string * value) :=
  v <- json_load kv.2 ;; ret (kv.1, v).

(** ** From document to document *)

Definition empty_state : state := mkState [] ∅ [] [].


(** The state after loading [j], and the entries of a dict cell. *)
Definition state_of (j : json) : state := (json_load j empty_state).2.

Definition entries_of (s : state) (l : loc) : list (string * value) :=
  match heap s !! l with
  | Some (ODict d) => d
  | _ => []
  end.

(** ** Sample configurations *)

(** The example of the specification. *)
Definition example_legacy : json :=
  JObj [("a", JInt 1); ("b", JInt 2);
        ("inner_size_probs",
         JArr [JArr [JInt 0; JFloat (1 # 2)]; JArr [JInt 1; JFloat (1 # 2)]]);
        ("outer_margin_probs", JArr []);
        ("shift_weights", JArr [JInt 1; JInt 3])].








(** A disk with the example at [cfg.json], without and with a file at
    the backup location. *)
Definition disk : state :=
  mkState [] {[ "cfg.json" := JsonText example_legacy ]} [] [].

Definition disk_with_backup : state :=
  mkState []
    (<[ "cfg.json.bak" := RawText "an earlier backup" ]>
       {[ "cfg.json" := JsonText example_legacy ]})
    [] [].

(** ** More of testing_formulas.py *)



Section Printing.
(** [repr] of a float.  Which digits Python prints for a float is not
    modelled; the text is a parameter. *)
Variable float_repr : Q -> string.




End Printing.


(** ** What a run leaves alone *)

(** The state outside the heap. *)
Definition outside (s : state) : gmap string fcontent * list string * list string :=
  (files s, logs s, stdout s).

(** [m] leaves the component [proj] of the state as it was. *)
Definition preserves {A X} (proj : state -> X) (m : M A) : Prop :=
  forall s, proj (m s).2 = proj s.

(** [m] logs [line] when it returns, and nothing when it raises. *)
Definition emits {A} (m : M A) (line : string) : Prop :=
  forall s, match (m s).1 with
            | Ok _ => logs (m s).2 = logs s ++ [line]
            | Raise _ => logs (m s).2 = logs s
            end.

(** [v] is no dict: a scalar, a string, or a list. *)
Definition not_a_dict (h : list object) (v : value) : Prop :=
  is_ref v = false \/ exists xs, is_list h v xs.

(** ** Documents *)












(** ** More sample inputs *)



(** * Reasoning about runs *)

Section Runs.
Context {A B : Type}.

Lemma bind_Ok (m : M A) (k : A -> M B) s a s' :
  m s = (Ok a, s') -> bind m k s = k a s'.
Proof. intros H. unfold bind. now rewrite H. Qed.

Lemma bind_Raise (m : M A) (k : A -> M B) s e s' :
  m s = (Raise e, s') -> bind m k s = (Raise e, s').
Proof. intros H. unfold bind. now rewrite H. Qed.

Lemma bind_inv (m : M A) (k : A -> M B) s r s2 :
  bind m k s = (r, s2) ->
  (exists a s1, m s = (Ok a, s1) /\ k a s1 = (r, s2))
  \/ (exists e, m s = (Raise e, s2) /\ r = Raise e).
Proof.
  unfold bind. destruct (m s) as [[a|e] s1]; intros H.
  - left. eauto.
  - right. inversion H; subst. eauto.
Qed.
End Runs.

Lemma keeps_refl n s : (n <= length (heap s))%nat -> keeps n s s.
Proof. now unfold keeps. Qed.

Lemma keeps_trans n s1 s2 s3 : keeps n s1 s2 -> keeps n s2 s3 -> keeps n s1 s3.
Proof.
  unfold keeps. intros (? & E1 & F1) (? & E2 & F2).
  repeat split; [assumption | now rewrite E2 | now rewrite F2].
Qed.

Lemma keeps_lookup n s s' l :
  keeps n s s' -> (l < n)%nat -> heap s' !! l = heap s !! l.
Proof.
  intros (_ & E & _) Hl.
  rewrite <- (lookup_take_lt (heap s') n l), <- (lookup_take_lt (heap s) n l) by lia.
  now rewrite E.
Qed.

Lemma keeps_le n m s s' : (m <= n)%nat -> keeps n s s' -> keeps m s s'.
Proof.
  intros Hm (Hn & E & F). repeat split; [lia | | assumption].
  replace m with (Nat.min m n) by lia.
  now rewrite <- !take_take, E.
Qed.

Section Frame.
Context {A B : Type}.

Lemma frame_ret n (a : A) (Q : A -> Prop) : Q a -> frame n (ret a) Q.
Proof.
  intros HQ s Hs. split; [now apply keeps_refl|].
  simpl. intros ? [= <-]. exact HQ.
Qed.

Lemma frame_raise n e (Q : A -> Prop) : frame n (raise e) Q.
Proof. intros s Hs. split; [now apply keeps_refl | discriminate]. Qed.

Lemma frame_lift n (r : result A) : frame n (lift r) any.
Proof. intros s Hs. split; [now apply keeps_refl | easy]. Qed.

Lemma frame_bind n (m : M A) (k : A -> M B) (P : A -> Prop) (Q : B -> Prop) :
  frame n m P -> (forall a, P a -> frame n (k a) Q) -> frame n (bind m k) Q.
Proof.
  intros Hm Hk s Hs. destruct (Hm s Hs) as [K1 V1].
  unfold bind. destruct (m s) as [[a|e] s1]; simpl in *.
  - destruct (Hk a (V1 a eq_refl) s1) as [K2 V2]; [apply K1|].
    split; [eapply keeps_trans; eassumption | exact V2].
  - split; [assumption | discriminate].
Qed.

Lemma frame_weaken n (m : M A) (P Q : A -> Prop) :
  frame n m P -> (forall a, P a -> Q a) -> frame n m Q.
Proof. intros Hm HPQ s Hs. destruct (Hm s Hs). split; auto. Qed.

Lemma frame_load_obj n v (other : M A) (k : object -> M A) (Q : A -> Prop) :
  frame n other Q -> (forall o, frame n (k o) Q) -> frame n (load_obj v other k) Q.
Proof.
  intros Ho Hk s Hs. unfold load_obj. destruct v; try now apply Ho.
  destruct (heap s !! l); [now apply Hk|].
  split; [now apply keeps_refl | discriminate].
Qed.

End Frame.

Lemma frame_traverse {A B} n (f : A -> M B) xs :
  (forall x, frame n (f x) any) -> frame n (traverse f xs) any.
Proof.
  intros Hf. induction xs as [|x r IH]; simpl.
  - now apply frame_ret.
  - eapply frame_bind; [apply Hf|]. intros y _.
    eapply frame_bind; [apply IH|]. intros ys _. now apply frame_ret.
Qed.

Lemma frame_alloc n o : frame n (alloc o) (fresh n).
Proof.
  intros s Hs. unfold alloc, keeps; simpl. split.
  - rewrite length_app, take_app_le by lia. repeat split; lia.
  - intros a [= <-]. exists (length (heap s)). now split.
Qed.

Lemma frame_store_obj n l o : (n <= l)%nat -> frame n (store_obj l o) any.
Proof.
  intros Hl s Hs. unfold store_obj, keeps; simpl. split; [|easy].
  rewrite length_insert, take_insert_ge by lia. now repeat split.
Qed.

(** ** The frame of each operation *)

Lemma frame_py_iter n v : frame n (py_iter v) any.
Proof.
  unfold py_iter. apply frame_load_obj.
  - destruct v; first [now apply frame_raise | now apply frame_ret].
  - intros [xs|d]; now apply frame_ret.
Qed.

Lemma frame_py_sum n v : frame n (py_sum v) any.
Proof.
  unfold py_sum. eapply frame_bind; [apply frame_py_iter|]. intros xs _.
  eapply frame_bind; [apply frame_lift|]. intros a _. now apply frame_ret.
Qed.

Lemma frame_py_truediv n a b : frame n (py_truediv a b) any.
Proof.
  unfold py_truediv. destruct (as_num a), (as_num b); try apply frame_raise.
  eapply frame_bind; [apply frame_lift|]. intros q _. now apply frame_ret.
Qed.

Lemma frame_py_getitem n v i : frame n (py_getitem v i) any.
Proof.
  unfold py_getitem. apply frame_load_obj.
  - destruct v; first [now apply frame_raise | apply frame_lift].
  - intros [xs|d]; [apply frame_lift | apply frame_raise].
Qed.

Lemma frame_list_comp n body v :
  (forall x, frame n (body x) any) -> frame n (list_comp body v) (fresh n).
Proof.
  intros Hb. unfold list_comp.
  eapply frame_bind; [apply frame_py_iter|]. intros xs _.
  eapply frame_bind; [now apply frame_traverse|]. intros ys _.
  apply frame_alloc.
Qed.

Lemma frame_dict_get n d key dflt :
  frame n dflt any -> frame n (dict_get d key dflt) any.
Proof.
  intros Hd. unfold dict_get. apply frame_load_obj; [apply frame_raise|].
  intros [xs|entries]; [apply frame_raise|].
  eapply frame_bind; [exact Hd|]. intros dv _. now apply frame_ret.
Qed.

Lemma frame_py_copy n d : frame n (py_copy d) (fresh n).
Proof.
  unfold py_copy. apply frame_load_obj; [apply frame_raise|].
  intros o. apply frame_alloc.
Qed.

Lemma frame_py_setitem n d key v : fresh n d -> frame n (py_setitem d key v) any.
Proof.
  intros (l & -> & Hl). unfold py_setitem.
  apply frame_load_obj; [apply frame_raise|].
  intros [xs|entries]; [apply frame_raise|]. now apply frame_store_obj.
Qed.

Lemma frame_dict_items n d : frame n (dict_items d) any.
Proof.
  unfold dict_items. apply frame_load_obj; [apply frame_raise|].
  intros [xs|entries]; [apply frame_raise | now apply frame_ret].
Qed.

Lemma frame_logger_info n msg : frame n (logger_info msg) any.
Proof. intros s Hs. split; [now unfold keeps | easy]. Qed.

Lemma frame_insert_at_position n d key v position :
  frame n (insert_at_position d key v position) (fresh n).
Proof.
  unfold insert_at_position.
  eapply frame_bind; [apply frame_dict_items|]. intros items _.
  apply frame_alloc.
Qed.

Lemma frame_any {A} n (m : M A) (Q : A -> Prop) : frame n m Q -> frame n m any.
Proof. intros H. eapply frame_weaken; [exact H | easy]. Qed.

Lemma frame_normalize n shift_weights w :
  frame n (total <- py_sum shift_weights ;; py_truediv w total) any.
Proof.
  eapply frame_bind; [apply frame_py_sum|]. intros t _. apply frame_py_truediv.
Qed.

Lemma frame_table n field i :
  frame n (list_comp (fun item => py_getitem item i) field) (fresh n).
Proof. apply frame_list_comp. intros x. apply frame_py_getitem. Qed.

(** [convert_to_1_0] writes only to cells it has allocated itself, and
    what it returns is one of them. *)
Lemma frame_convert_to_1_0 n old_json :
  frame n (convert_to_1_0 old_json) (fresh n).
Proof.
  unfold convert_to_1_0.
  do 3 (eapply frame_bind;
        [apply frame_dict_get; eapply frame_any, frame_alloc | intros ? _]).
  eapply frame_bind;
    [eapply frame_any, frame_list_comp; intros; apply frame_normalize | intros ? _].
  eapply frame_bind; [apply frame_py_copy | intros new_json Hnew].
  do 2 (do 2 (eapply frame_bind; [eapply frame_any, frame_table | intros ? _]);
        eapply frame_bind; [eapply frame_any, frame_alloc | intros ? _];
        eapply frame_bind; [now apply frame_py_setitem | intros ? _]).
  eapply frame_bind; [eapply frame_any, frame_alloc | intros ? _].
  eapply frame_bind; [now apply frame_py_setitem | intros ? _].
  eapply frame_bind; [apply frame_insert_at_position | intros v Hv].
  eapply frame_bind; [apply frame_logger_info | intros ? _].
  now apply frame_ret.
Qed.

(** ** Running the operations on a heap [h ++ ext]

    [h] is the heap at the call, [ext] the cells allocated since then;
    the cell [length h + k] is the [k]-th of [ext]. *)



Lemma deref_old h ext v o : deref h v = Some o -> deref (h ++ ext) v = Some o.
Proof. destruct v; simpl; try discriminate. apply lookup_app_l_Some. Qed.

Lemma alloc_at h ext f lg out o :
  alloc o (mkState (h ++ ext) f lg out)
  = (Ok (VRef (length h + length ext)%nat), mkState (h ++ (ext ++ [o])) f lg out).
Proof. unfold alloc, set_heap; simpl. now rewrite length_app, <- app_assoc. Qed.

Lemma load_obj_run {A} v (other : M A) k s o :
  deref (heap s) v = Some o -> load_obj v other k s = k o s.
Proof. destruct v; simpl; try discriminate. intros H. unfold load_obj. now rewrite H. Qed.


Lemma py_iter_dict v s d :
  deref (heap s) v = Some (ODict d) ->
  py_iter v s = (Ok (map (fun kv => VStr (fst kv)) d), s).
Proof. intros H. unfold py_iter. now rewrite (load_obj_run _ _ _ _ _ H). Qed.


Lemma py_getitem_dict v i s d :
  deref (heap s) v = Some (ODict d) -> py_getitem v i s = (Raise KeyError, s).
Proof. intros H. unfold py_getitem. now rewrite (load_obj_run _ _ _ _ _ H). Qed.



Lemma dict_get_run d key dflt s entries dv s' :
  deref (heap s) d = Some (ODict entries) ->
  dflt s = (Ok dv, s') ->
  dict_get d key dflt s = (Ok (default dv (assoc_get key entries)), s').
Proof.
  intros H Hd. unfold dict_get. rewrite (load_obj_run _ _ _ _ _ H).
  now rewrite (bind_Ok _ _ _ _ _ Hd).
Qed.

Lemma py_copy_run d s o :
  deref (heap s) d = Some o -> py_copy d s = alloc o s.
Proof. intros H. unfold py_copy. now rewrite (load_obj_run _ _ _ _ _ H). Qed.

Lemma py_setitem_run l key v s entries :
  heap s !! l = Some (ODict entries) ->
  py_setitem (VRef l) key v s
  = (Ok tt, set_heap (<[l := ODict (assoc_set key v entries)]> (heap s)) s).
Proof. intros H. unfold py_setitem, load_obj. now rewrite H. Qed.

Lemma dict_items_run d s entries :
  deref (heap s) d = Some (ODict entries) -> dict_items d s = (Ok entries, s).
Proof. intros H. unfold dict_items. now rewrite (load_obj_run _ _ _ _ _ H). Qed.




(** ** Ordered dicts *)

Section Dicts.
Context {V : Type}.
Implicit Types (d items : list (string * V)) (k : string) (v : V).

Lemma eqb_decide k k' : String.eqb k k' = bool_decide (k = k').
Proof.
  destruct (String.eqb_spec k k'); symmetry;
    [now apply bool_decide_eq_true | now apply bool_decide_eq_false].
Qed.

Lemma assoc_get_None k d : assoc_get k d = None <-> k ∉ keys d.
Proof.
  induction d as [|[k' v'] r IH]; simpl.
  - split; [intros _; apply not_elem_of_nil | easy].
  - rewrite not_elem_of_cons. destruct (String.eqb_spec k k'); [|tauto].
    split; [discriminate | tauto].
Qed.

Lemma assoc_get_Some_elem k v d : assoc_get k d = Some v -> (k, v) ∈ d.
Proof.
  induction d as [|[k' v'] r IH]; simpl; [discriminate|].
  destruct (String.eqb_spec k k') as [->|].
  - intros [= ->]. apply list_elem_of_here.
  - intros H. apply list_elem_of_further. auto.
Qed.

Lemma assoc_get_elem k v d : NoDup (keys d) -> (k, v) ∈ d -> assoc_get k d = Some v.
Proof.
  induction d as [|[k' v'] r IH]; simpl; intros Hn Hin.
  - inversion Hin.
  - apply NoDup_cons in Hn as [Hk Hn].
    apply elem_of_cons in Hin as [[= -> ->]|Hin].
    + now rewrite String.eqb_refl.
    + destruct (String.eqb_spec k k') as [->|]; [|auto].
      exfalso. apply Hk. apply (list_elem_of_fmap_2 fst) in Hin. exact Hin.
Qed.

Lemma assoc_get_app k d1 d2 :
  assoc_get k (d1 ++ d2)
  = match assoc_get k d1 with Some v => Some v | None => assoc_get k d2 end.
Proof.
  induction d1 as [|[k' v'] r IH]; simpl; [reflexivity|].
  now destruct (String.eqb k k').
Qed.

Lemma assoc_get_set_eq k v d : assoc_get k (assoc_set k v d) = Some v.
Proof.
  induction d as [|[k' v'] r IH]; simpl.
  - now rewrite String.eqb_refl.
  - destruct (String.eqb k k') eqn:E; simpl; now rewrite E.
Qed.

Lemma assoc_get_set_ne k k' v d :
  k <> k' -> assoc_get k (assoc_set k' v d) = assoc_get k d.
Proof.
  intros Hne. induction d as [|[k2 v2] r IH]; simpl.
  - now apply String.eqb_neq in Hne as ->.
  - destruct (String.eqb_spec k' k2) as [->|]; simpl.
    + now apply String.eqb_neq in Hne as ->.
    + now rewrite IH.
Qed.

Lemma assoc_set_fresh k v d : k ∉ keys d -> assoc_set k v d = d ++ [(k, v)].
Proof.
  induction d as [|[k' v'] r IH]; simpl; [reflexivity|].
  rewrite not_elem_of_cons. intros [Hne Hr].
  apply String.eqb_neq in Hne as ->. now rewrite IH.
Qed.

Lemma assoc_set_app_r k v d1 d2 :
  k ∉ keys d1 -> assoc_set k v (d1 ++ d2) = d1 ++ assoc_set k v d2.
Proof.
  induction d1 as [|[k' v'] r IH]; simpl; [reflexivity|].
  rewrite not_elem_of_cons. intros [Hne Hr].
  apply String.eqb_neq in Hne as ->. now rewrite IH.
Qed.

Lemma keys_assoc_set k v d :
  keys (assoc_set k v d) = keys d ++ (if decide (k ∈ keys d) then [] else [k]).
Proof.
  induction d as [|[k' v'] r IH]; [reflexivity|].
  cbn [assoc_set]. destruct (String.eqb_spec k k') as [->|Hne];
    cbn [fmap list_fmap fst app].
  - rewrite decide_True by apply list_elem_of_here. now rewrite app_nil_r.
  - rewrite IH. f_equal.
    destruct (decide (k ∈ keys r)) as [Hin|Hin].
    + now rewrite decide_True by now apply list_elem_of_further.
    + rewrite decide_False; [reflexivity|]. rewrite not_elem_of_cons. tauto.
Qed.

Lemma assoc_set_NoDup k v d : NoDup (keys d) -> NoDup (keys (assoc_set k v d)).
Proof.
  intros Hn. rewrite keys_assoc_set. destruct (decide (k ∈ keys d)).
  - now rewrite app_nil_r.
  - apply NoDup_app. repeat split; [assumption | | apply NoDup_singleton].
    intros x Hx ->%list_elem_of_singleton. contradiction.
Qed.


Lemma dict_update_cons d k v items :
  dict_update d ((k, v) :: items) = dict_update (assoc_set k v d) items.
Proof. reflexivity. Qed.

Lemma dict_update_app d items1 items2 :
  dict_update d (items1 ++ items2) = dict_update (dict_update d items1) items2.
Proof. apply fold_left_app. Qed.

Ltac keys_solver :=
  repeat match goal with
         | H : NoDup _ |- _ =>
             progress (rewrite ?fmap_app, ?fmap_cons, ?NoDup_app, ?NoDup_cons in H)
         end;
  rewrite ?fmap_app, ?fmap_cons, ?NoDup_app, ?NoDup_cons;
  cbn [fst fmap list_fmap app] in *;
  repeat split; try apply NoDup_nil_2; set_solver.

(** Pairs with new, distinct keys are appended in order. *)
Lemma dict_update_fresh d items :
  NoDup (keys (d ++ items)) -> dict_update d items = d ++ items.
Proof.
  revert d. induction items as [|[k v] r IH]; intros d Hn.
  - cbn. now rewrite app_nil_r.
  - rewrite dict_update_cons, assoc_set_fresh, IH.
    + now rewrite <- app_assoc.
    + rewrite <- app_assoc. exact Hn.
    + keys_solver.
Qed.

Lemma dict_of_items_NoDup items : NoDup (keys items) -> dict_of_items items = items.
Proof. intros Hn. apply (dict_update_fresh [] items Hn). Qed.

(** A key given twice: the first pair fixes the position, the second
    the value. *)
Lemma dict_of_items_twice a k v m v0 p :
  NoDup (keys (a ++ m ++ (k, v0) :: p)) ->
  dict_of_items (a ++ (k, v) :: m ++ (k, v0) :: p) = a ++ (k, v0) :: m ++ p.
Proof.
  intros Hn. unfold dict_of_items.
  replace (a ++ (k, v) :: m ++ (k, v0) :: p)
    with ((a ++ (k, v) :: m) ++ (k, v0) :: p) by now rewrite <- app_assoc.
  rewrite dict_update_app.
  rewrite (dict_update_fresh [] (a ++ (k, v) :: m)) by keys_solver.
  rewrite app_nil_l, dict_update_cons, (assoc_set_app_r k v0 a) by keys_solver.
  cbn [assoc_set]. rewrite String.eqb_refl, dict_update_fresh.
  - now rewrite <- app_assoc.
  - keys_solver.
Qed.

(** Looking a key up in [dict(items)] finds its last pair. *)
Lemma assoc_get_dict_update k d items :
  assoc_get k (dict_update d items)
  = match assoc_get k (reverse items) with
    | Some v => Some v
    | None => assoc_get k d
    end.
Proof.
  revert d. induction items as [|[k' v'] r IH]; intros d; [reflexivity|].
  rewrite dict_update_cons, IH, reverse_cons, assoc_get_app.
  destruct (assoc_get k (reverse r)); [reflexivity|]. cbn [assoc_get].
  destruct (String.eqb_spec k k') as [->|Hne].
  - apply assoc_get_set_eq.
  - now apply assoc_get_set_ne.
Qed.

Lemma assoc_get_reverse k d : NoDup (keys d) -> assoc_get k (reverse d) = assoc_get k d.
Proof.
  intros Hn. destruct (assoc_get k d) as [v|] eqn:E.
  - apply assoc_get_elem.
    + now rewrite fmap_reverse, reverse_Permutation.
    + apply elem_of_reverse. now apply assoc_get_Some_elem.
  - apply assoc_get_None. rewrite fmap_reverse, elem_of_reverse.
    now apply assoc_get_None.
Qed.
End Dicts.

(** ** Exact arithmetic of [sum] and [/] *)










(** ** The run of [convert_to_1_0] on a legacy configuration *)









(** ** The stamped dict *)

Lemma list_insert_at_2 {A} (items : list A) x :
  list_insert_at items 2 x = take 2 items ++ x :: drop 2 items.
Proof.
  unfold list_insert_at. cbn [Z.ltb Z.compare].
  destruct (decide (2 <= length items)) as [Hl|Hl].
  - now rewrite Z.min_l by lia.
  - rewrite Z.min_r, Nat2Z.id by lia.
    now rewrite !take_ge, !drop_ge by lia.
Qed.

Section Stamp.
Context {V : Type}.
Implicit Types (d : list (string * V)) (k : string) (v : V).

Lemma assoc_get_take_None k d i :
  assoc_get k d = None -> assoc_get k (take i d) = None.
Proof.
  rewrite !assoc_get_None. intros Hk Hin. apply Hk.
  apply list_elem_of_fmap in Hin as (kv & -> & Hin).
  apply list_elem_of_fmap_2. apply elem_of_take in Hin as (j & Hj & _).
  eapply list_elem_of_lookup_2; eassumption.
Qed.

Lemma assoc_get_take_drop k d i :
  assoc_get k d
  = match assoc_get k (take i d) with
    | Some v => Some v
    | None => assoc_get k (drop i d)
    end.
Proof. now rewrite <- assoc_get_app, take_drop. Qed.

(** Stamping a pair at position [i] leaves every other key alone, and
    the stamped key too when it already sits at [i] or later. *)
Lemma assoc_get_stamped k d i x v :
  NoDup (keys d) ->
  assoc_get k d = Some v ->
  (k = fst x -> assoc_get k (take i d) = None) ->
  assoc_get k (dict_of_items (take i d ++ x :: drop i d)) = Some v.
Proof.
  intros Hn Hk Hx. unfold dict_of_items.
  rewrite assoc_get_dict_update, reverse_app, reverse_cons, <- app_assoc.
  rewrite !assoc_get_app.
  assert (Hnd : NoDup (keys (drop i d)) /\ NoDup (keys (take i d))).
  { rewrite <- (take_drop i d), fmap_app in Hn.
    apply NoDup_app in Hn as (? & _ & ?). now split. }
  destruct Hnd as [Hnd Hnt].
  rewrite !assoc_get_reverse by assumption.
  rewrite (assoc_get_take_drop k d i) in Hk.
  destruct (assoc_get k (drop i d)) as [v'|] eqn:Ed.
  - destruct (assoc_get k (take i d)) as [v''|] eqn:Et; [|assumption].
    exfalso. apply assoc_get_Some_elem, (list_elem_of_fmap_2 fst) in Ed, Et.
    rewrite <- (take_drop i d), fmap_app in Hn.
    apply NoDup_app in Hn as (_ & Hdis & _). exact (Hdis _ Et Ed).
  - destruct (assoc_get k (take i d)) as [v''|] eqn:Et; [|discriminate].
    destruct x as [kx vx]. cbn [assoc_get fst] in *.
    destruct (String.eqb_spec k kx) as [->|]; [|assumption].
    now specialize (Hx eq_refl).
Qed.


Lemma dict_update_NoDup d items :
  NoDup (keys d) -> NoDup (keys (dict_update d items)).
Proof.
  revert d. induction items as [|[k v] r IH]; intros d Hn; [assumption|].
  rewrite dict_update_cons. now apply IH, assoc_set_NoDup.
Qed.

Lemma assoc_set_length k v d : length d <= length (assoc_set k v d).
Proof.
  induction d as [|[k' v'] r IH]; cbn [assoc_set length]; [lia|].
  destruct (String.eqb k k'); cbn [length]; lia.
Qed.

Lemma assoc_get_lookup k v d i : d !! i = Some (k, v) -> NoDup (keys d) ->
  assoc_get k d = Some v.
Proof.
  intros Hi Hn. apply assoc_get_elem; [assumption|].
  eapply list_elem_of_lookup_2; eassumption.
Qed.
End Stamp.

(** ** The fields of the converted dict *)

Lemma migrated_get d t1 t2 t3 :
  NoDup (keys d) ->
  assoc_get "inner_size_probs" (migrated d t1 t2 t3) = Some t1
  /\ assoc_get "outer_margin_probs" (migrated d t1 t2 t3) = Some t2
  /\ assoc_get "shift_weights" (migrated d t1 t2 t3) = Some t3.
Proof.
  intros Hn. unfold migrated. rewrite list_insert_at_2.
  set (d3 := assoc_set "shift_weights" t3 _).
  assert (Hn3 : NoDup (keys d3)) by now do 3 apply assoc_set_NoDup.
  repeat split; (apply assoc_get_stamped; [assumption | | discriminate]); subst d3.
  - now rewrite !assoc_get_set_ne, assoc_get_set_eq by discriminate.
  - now rewrite assoc_get_set_ne, assoc_get_set_eq by discriminate.
  - apply assoc_get_set_eq.
Qed.






(** ** Where the version stamp lands *)









(** What the conversion leaves of the heap it was called on. *)
Lemma convert_to_1_0_keeps_heap old_json s :
  take (length (heap s)) (heap (convert_to_1_0 old_json s).2) = heap s
  /\ files (convert_to_1_0 old_json s).2 = files s
  /\ forall v, (convert_to_1_0 old_json s).1 = Ok v -> fresh (length (heap s)) v.
Proof.
  destruct (frame_convert_to_1_0 (length (heap s)) old_json s (le_n _))
    as [(_ & E & F) Hv].
  rewrite E, firstn_all. auto.
Qed.



(** ** The input is not mutated *)

Ltac bind_ok H :=
  apply bind_inv in H as [(? & ? & ? & H) | (? & _ & [=])].

Lemma insert_at_position_dict d key v position s new s' :
  insert_at_position d key v position s = (Ok new, s') ->
  exists d', is_dict (heap s') new d' /\ logs s' = logs s.
Proof.
  unfold insert_at_position. intros H. bind_ok H.
  unfold alloc in H. injection H as <- <-. eexists. split; [|simpl].
  - unfold is_dict, deref, set_heap; simpl. apply list_lookup_middle. reflexivity.
  - unfold dict_items, load_obj in *.
    repeat match goal with
           | H : match ?x with _ => _ end _ = _ |- _ => destruct x; try discriminate
           | H : match ?x with _ => _ end = _ |- _ => destruct x; try discriminate
           | H : ret _ _ = (_, _) |- _ => injection H as <- <-
           | H : raise _ _ = (_, _) |- _ => discriminate
           end; reflexivity.
Qed.

Lemma convert_to_1_0_returns_dict old_json s new s' :
  convert_to_1_0 old_json s = (Ok new, s') -> exists d', is_dict (heap s') new d'.
Proof.
  unfold convert_to_1_0. intros H. do 15 bind_ok H. bind_ok H.
  match goal with
  | H0 : insert_at_position _ _ _ _ _ = _ |- _ =>
      apply insert_at_position_dict in H0 as (d' & Hd' & _)
  end.
  unfold bind, logger_info, ret in H. injection H as <- <-. now exists d'.
Qed.

(** C7: the conversion does not mutate its input and returns a new
    mapping.  Whatever it returns or raises, the input dict has the
    entries it had (and every object of the heap of the call is as it
    was); a returned value is a reference to a dict allocated during the
    call, so it is not the input. *)
Theorem convert_to_1_0_does_not_mutate s old_json d :
  is_dict (heap s) old_json d ->
  is_dict (heap (convert_to_1_0 old_json s).2) old_json d
  /\ take (length (heap s)) (heap (convert_to_1_0 old_json s).2) = heap s
  /\ forall new, (convert_to_1_0 old_json s).1 = Ok new ->
       new <> old_json
       /\ fresh (length (heap s)) new
       /\ exists d', is_dict (heap (convert_to_1_0 old_json s).2) new d'.
Proof.
  intros Hd.
  destruct (convert_to_1_0_keeps_heap old_json s) as (E & _ & Hf).
  split; [|split; [exact E|]].
  - unfold is_dict in *. destruct old_json; try discriminate. simpl in *.
    rewrite <- E in Hd. rewrite lookup_take_lt in Hd; [assumption|].
    apply lookup_lt_Some in Hd. rewrite length_take in Hd. lia.
  - intros new Hnew. destruct (Hf new Hnew) as (l & -> & Hl).
    split; [|split].
    + intros <-. unfold is_dict in Hd. simpl in Hd.
      apply lookup_lt_Some in Hd. lia.
    + now exists l.
    + destruct (convert_to_1_0 old_json s) as [r s'] eqn:Hrun. simpl in *. subst r.
      eapply convert_to_1_0_returns_dict; eassumption.
Qed.

(** ** The radius formulas *)








(** ** Entries that are not pairs *)














Lemma frame_run {A} n (m : M A) Q s a s1 :
  frame n m Q -> n <= length (heap s) -> m s = (Ok a, s1) -> keeps n s s1 /\ Q a.
Proof.
  intros Hf Hn Hm. destruct (Hf s Hn) as [K V]. rewrite Hm in K, V. auto.
Qed.











(** ** Loading JSON *)

Lemma json_ind' (P : json -> Prop) :
  P JNull -> (forall b, P (JBool b)) -> (forall n, P (JInt n)) ->
  (forall x, P (JFloat x)) -> (forall s, P (JStr s)) ->
  (forall items, Forall P items -> P (JArr items)) ->
  (forall members, Forall (fun kv => P kv.2) members -> P (JObj members)) ->
  forall j, P j.
Proof.
  intros HN HB HI HF HS HA HO. fix IH 1.
  intros [|b|n|x|s|items|members];
    [exact HN | apply HB | apply HI | apply HF | apply HS | |].
  - apply HA. induction items as [|x r IHr]; constructor; [apply IH | exact IHr].
  - apply HO. induction members as [|[k x] r IHr]; constructor; [apply IH | exact IHr].
Qed.

Lemma frame_traverse_Forall {A B} n (f : A -> M B) xs :
  Forall (fun x => frame n (f x) any) xs -> frame n (traverse f xs) any.
Proof.
  induction 1 as [|x r Hx _ IH]; simpl.
  - now apply frame_ret.
  - eapply frame_bind; [apply Hx|]. intros y _.
    eapply frame_bind; [apply IH|]. intros ys _. now apply frame_ret.
Qed.

(** [json.load] only allocates. *)
Lemma frame_json_load n j : frame n (json_load j) any.
Proof.
  induction j as [| | | | |items IH|members IH] using json_ind';
    try now apply frame_ret.
  - cbn [json_load]. eapply frame_bind; [now apply frame_traverse_Forall|].
    intros xs _. eapply frame_any, frame_alloc.
  - cbn [json_load]. eapply frame_bind.
    + apply frame_traverse_Forall. eapply Forall_impl; [exact IH|].
      intros [k x] Hx. simpl in *.
      eapply frame_bind; [exact Hx|]. intros v _. now apply frame_ret.
    + intros kvs _. eapply frame_any, frame_alloc.
Qed.

Lemma frame_load_file n path : frame n (load_file path) any.
Proof.
  intros s Hs. unfold load_file.
  destruct (files s !! path) as [[j|t]|].
  - now apply frame_json_load.
  - split; [now apply keeps_refl | discriminate].
  - split; [now apply keeps_refl | discriminate].
Qed.

(** ** The backup *)

Lemma backup_path_ne path : path +:+ ".bak" <> path.
Proof. induction path as [|c p IH]; simpl; [discriminate|]. intros [= H]. auto. Qed.

Lemma os_rename_files os src dst s r s' :
  os_rename os src dst s = (r, s') ->
  (exists e, r = Raise e /\ s' = s)
  \/ (exists c, r = Ok tt /\ files s !! src = Some c
                /\ files s' = <[dst := c]> (delete src (files s))
                /\ heap s' = heap s).
Proof.
  unfold os_rename. destruct (files s !! src) as [c|] eqn:E.
  - destruct os; [| destruct (files s !! dst)];
      intros [= <- <-]; eauto 10.
  - intros [= <- <-]. eauto.
Qed.

Lemma dump_file_files v path s :
  exists c, files (dump_file v path s).2 = <[path := c]> (files s).
Proof. unfold dump_file. destruct (to_json _ _ _); simpl; eauto. Qed.

Lemma logger_info_files msg s : files (logger_info msg s).2 = files s.
Proof. reflexivity. Qed.

(** Up to the rename nothing on disk changes. *)
Lemma load_convert_files path s :
  files ((config <- load_file path ;; convert_to_1_0 config) s).2 = files s.
Proof.
  assert (F : frame 0 (config <- load_file path ;; convert_to_1_0 config) any).
  { eapply frame_bind; [apply frame_load_file|]. intros c _.
    eapply frame_any, frame_convert_to_1_0. }
  destruct (F s (Nat.le_0_l _)) as [(_ & _ & Hf) _]. exact Hf.
Qed.

Lemma migrateFile_unfold os path s :
  migrateFile os path s
  = match load_file path (logged ("loading " +:+ path) s) with
    | (Ok config, sA) =>
        match convert_to_1_0 config sA with
        | (Ok new, sB) =>
            match os_rename os path (path +:+ ".bak") sB with
            | (Ok _, sC) =>
                match dump_file new path sC with
                | (Ok _, sD) => (Ok tt, logged ("saved " +:+ path) sD)
                | (Raise e, sD) => (Raise e, sD)
                end
            | (Raise e, sC) => (Raise e, sC)
            end
        | (Raise e, sB) => (Raise e, sB)
        end
    | (Raise e, sA) => (Raise e, sA)
    end.
Proof.
  unfold migrateFile, bind. unfold logger_info at 1.
  destruct (load_file _ _) as [[config|e] sA]; [|reflexivity].
  destruct (convert_to_1_0 _ _) as [[new|e] sB]; [|reflexivity].
  destruct (os_rename _ _ _ _) as [[[]|e] sC]; [|reflexivity].
  destruct (dump_file _ _ _) as [[[]|e] sD]; reflexivity.
Qed.

(** The course of [migrateFile]: it stops before the rename has been
    done, leaving the disk as it was, or the rename has moved the
    original to the backup and the dump has then written [path]. *)
Lemma migrateFile_cases os path s :
  (exists e s', migrateFile os path s = (Raise e, s') /\ files s' = files s)
  \/ (exists c config sA new sB,
        files s !! path = Some c
        /\ load_file path (logged ("loading " +:+ path) s) = (Ok config, sA)
        /\ convert_to_1_0 config sA = (Ok new, sB)
        /\ files sB = files s
        /\ (os = Windows -> files s !! (path +:+ ".bak") = None)
        /\ let sC := set_files (<[path +:+ ".bak" := c]> (delete path (files s))) sB in
           migrateFile os path s
           = match dump_file new path sC with
             | (Ok _, sD) => (Ok tt, logged ("saved " +:+ path) sD)
             | (Raise e, sD) => (Raise e, sD)
             end).
Proof.
  rewrite migrateFile_unfold. set (s0 := logged _ s).
  assert (F0 : files s0 = files s) by reflexivity.
  destruct (load_file path s0) as [[config|e] sA] eqn:EL.
  2:{ left. exists e, sA. split; [reflexivity|].
      destruct (frame_load_file 0 path s0 (Nat.le_0_l _)) as [(_ & _ & F) _].
      rewrite EL in F. simpl in F. congruence. }
  assert (FA : files sA = files s).
  { destruct (frame_load_file 0 path s0 (Nat.le_0_l _)) as [(_ & _ & F) _].
    rewrite EL in F. simpl in F. congruence. }
  destruct (convert_to_1_0 config sA) as [[new|e] sB] eqn:EC.
  2:{ left. exists e, sB. split; [reflexivity|].
      destruct (frame_convert_to_1_0 0 config sA (Nat.le_0_l _)) as [(_ & _ & F) _].
      rewrite EC in F. simpl in F. congruence. }
  assert (FB : files sB = files s).
  { destruct (frame_convert_to_1_0 0 config sA (Nat.le_0_l _)) as [(_ & _ & F) _].
    rewrite EC in F. simpl in F. congruence. }
  destruct (os_rename os path (path +:+ ".bak") sB) as [[[]|e] sC] eqn:ER.
  2:{ left. exists e, sC. split; [reflexivity|].
      apply os_rename_files in ER as [(e' & _ & ->)|(c & [=] & _)]. assumption. }
  right. unfold os_rename in ER. rewrite FB in ER.
  destruct (files s !! path) as [c|] eqn:Ec; [|discriminate].
  exists c, config, sA, new, sB.
  assert (Hw : os = Windows -> files s !! (path +:+ ".bak") = None).
  { intros ->. destruct (files s !! (path +:+ ".bak")); [discriminate | reflexivity]. }
  assert (HC : sC = set_files (<[path +:+ ".bak" := c]> (delete path (files s))) sB).
  { destruct os; [| destruct (files s !! (path +:+ ".bak"))];
      try discriminate; injection ER as <-; reflexivity. }
  rewrite <- HC. repeat split; assumption.
Qed.

(** ** Converting what has been converted *)

Lemma fold_sum_Raise xs e : fold_left sum_step xs (Raise e) = Raise e.
Proof. induction xs; simpl; auto. Qed.

Lemma sum_values_str k xs : sum_values (VStr k :: xs) = Raise TypeError.
Proof. unfold sum_values. simpl. apply fold_sum_Raise. Qed.

(** A [shift_weights] that is a non-empty dict, as in a file already in
    version 1.0: [sum] meets a key, a string. *)
Lemma convert_to_1_0_migrated s lo d lt k0 v0 rest :
  heap s !! lo = Some (ODict d) ->
  assoc_get "shift_weights" d = Some (VRef lt) ->
  heap s !! lt = Some (ODict ((k0, v0) :: rest)) ->
  (convert_to_1_0 (VRef lo) s).1 = Raise TypeError.
Proof.
  intros Hd Hget Hlt. destruct s as [h f lg out]; simpl in *.
  unfold convert_to_1_0. rewrite <- (app_nil_r h) at 1.
  assert (Hold : forall ext, deref (h ++ ext) (VRef lo) = Some (ODict d))
    by (intros; now apply deref_old).
  do 3 (erewrite bind_Ok
          by (eapply dict_get_run; [apply Hold | apply alloc_at]); simpl).
  rewrite Hget. cbn [default].
  assert (Hsw : forall ext, deref (h ++ ext) (VRef lt) = Some (ODict ((k0, v0) :: rest)))
    by (intros; now apply deref_old).
  erewrite bind_Raise; [reflexivity|]. unfold list_comp.
  erewrite bind_Ok by (apply py_iter_dict, Hsw).
  apply bind_Raise. cbn [map traverse fst]. apply bind_Raise, bind_Raise.
  unfold py_sum. erewrite bind_Ok by (apply py_iter_dict, Hsw).
  apply bind_Raise. cbn [map fst]. unfold lift. now rewrite sum_values_str.
Qed.

(** ** What a returned dict looks like, whatever the input *)

(** One field turned into a table and stored in [new_json]: only the
    cell of [new_json] changes among those present before. *)
Lemma pair_stage {A} s nj e0 field key (K : M A) r s' :
  heap s !! nj = Some (ODict e0) ->
  (values <- list_comp (fun item => py_getitem item 0%Z) field ;;
   probs <- list_comp (fun item => py_getitem item 1%Z) field ;;
   table <- alloc (ODict [("values", values); ("probs", probs)]) ;;
   py_setitem (VRef nj) key table ;;; K) s = (Ok r, s') ->
  exists t s1,
    K s1 = (Ok r, s')
    /\ heap s1 !! nj = Some (ODict (assoc_set key t e0))
    /\ length (heap s) <= length (heap s1)
    /\ forall l, l < length (heap s) -> l <> nj -> heap s1 !! l = heap s !! l.
Proof.
  intros Hnj H.
  pose proof (lookup_lt_Some _ _ _ Hnj) as Hlt.
  bind_ok H. rename H0 into HV.
  eapply (frame_run (length (heap s))) in HV as [K1 _]; [| apply frame_table | lia].
  bind_ok H. rename H0 into HP.
  eapply (frame_run (length (heap s))) in HP as [K2 _]; [| apply frame_table | apply K1].
  pose proof (keeps_trans _ _ _ _ K1 K2) as K12.
  bind_ok H. unfold alloc in H0. injection H0 as <- <-.
  erewrite bind_Ok in H; cycle 1.
  { apply py_setitem_run. simpl. apply lookup_app_l_Some.
    rewrite (keeps_lookup _ _ _ _ K12 Hlt). exact Hnj. }
  eexists _, _. split; [exact H|]. simpl.
  destruct K12 as (Hlen & _). 
  repeat split.
  - rewrite list_lookup_insert_eq; [reflexivity|]. rewrite length_app. lia.
  - rewrite length_insert, length_app. lia.
  - intros l Hl Hne. rewrite list_lookup_insert_ne by auto.
    rewrite lookup_app_l by lia.
    apply (keeps_lookup (length (heap s))); [|assumption].
    eapply keeps_trans; eassumption.
Qed.

Lemma keeps_step {A} n (m : M A) Q s0 s a s1 :
  frame n m Q -> keeps n s0 s -> m s = (Ok a, s1) -> keeps n s0 s1 /\ Q a.
Proof.
  intros Hf K Hm. destruct (frame_run n m Q s a s1 Hf (proj1 K) Hm).
  split; [eapply keeps_trans|]; eauto.
Qed.

Lemma convert_to_1_0_shape s lo d new s' :
  heap s !! lo = Some (ODict d) ->
  convert_to_1_0 (VRef lo) s = (Ok new, s') ->
  exists t1 t2 lt p ln,
    new = VRef ln
    /\ heap s' !! ln = Some (ODict (migrated d t1 t2 (VRef lt)))
    /\ heap s' !! lt = Some (ODict [("values", VNone); ("probs", p)]).
Proof.
  intros Hd H. pose proof (lookup_lt_Some _ _ _ Hd) as Hlo.
  set (n := length (heap s)) in *.
  assert (K0 : keeps n s s) by now apply keeps_refl.
  unfold convert_to_1_0 in H.
  (* the three [get]s and the normalisation keep the cells of the call *)
  bind_ok H. eapply (keeps_step n) in H0 as [K1 _];
    [| apply frame_dict_get; eapply frame_any, frame_alloc | exact K0].
  bind_ok H. eapply (keeps_step n) in H0 as [K2 _];
    [| apply frame_dict_get; eapply frame_any, frame_alloc | exact K1].
  bind_ok H. eapply (keeps_step n) in H0 as [K3 _];
    [| apply frame_dict_get; eapply frame_any, frame_alloc | exact K2].
  bind_ok H. eapply (keeps_step n) in H0 as [K4 _];
    [| apply frame_list_comp; intros; apply frame_normalize | exact K3].
  (* the copy *)
  match type of H with bind _ _ ?st = _ => set (s4 := st) in * end.
  assert (Hd4 : heap s4 !! lo = Some (ODict d))
    by now rewrite (keeps_lookup _ _ _ _ K4 Hlo).
  erewrite bind_Ok in H by (erewrite py_copy_run by exact Hd4; reflexivity).
  set (nj := length (heap s4)) in *.
  (* the two tables of pairs *)
  apply pair_stage with (e0 := d) in H as (t1 & s5 & H & Hnj5 & Hlen5 & _);
    [| simpl; now rewrite list_lookup_middle].
  apply pair_stage with (e0 := assoc_set "inner_size_probs" t1 d) in H
    as (t2 & s6 & H & Hnj6 & Hlen6 & _); [| exact Hnj5].
  (* the table of weights and the stamp *)
  bind_ok H. unfold alloc in H0. injection H0 as <- <-.
  erewrite bind_Ok in H
    by (apply py_setitem_run; simpl; apply lookup_app_l_Some; exact Hnj6).
  pose proof (lookup_lt_Some _ _ _ Hnj6) as Hlt6.
  unfold insert_at_position in H.
  erewrite bind_Ok in H; cycle 1.
  { erewrite bind_Ok; [reflexivity|]. apply dict_items_run. simpl.
    rewrite list_lookup_insert_eq; [reflexivity|]. rewrite length_app. lia. }
  unfold bind, logger_info, ret in H. injection H as <- <-.
  eexists t1, t2, (length (heap s6)), _, _. split; [reflexivity|]. simpl.
  split.
  - rewrite lookup_app_r; rewrite length_insert, length_app; simpl; [|lia].
    replace (_ - _) with 0 by lia. reflexivity.
  - rewrite lookup_app_l by (rewrite length_insert, length_app; simpl; lia).
    rewrite list_lookup_insert_ne by lia.
    rewrite list_lookup_middle; reflexivity.
Qed.

(** ** What is written, and what is read back *)

Lemma mapR_Forall2 {A B} (g : A -> result B) xs ys :
  mapR g xs = Ok ys -> Forall2 (fun x y => g x = Ok y) xs ys.
Proof.
  revert ys. induction xs as [|x r IH]; intros ys H; cbn [mapR] in H.
  - injection H as <-. constructor.
  - destruct (g x) as [y|e] eqn:E; [|discriminate].
    destruct (mapR g r) as [zs|e]; [|discriminate].
    injection H as <-. constructor; auto.
Qed.

Lemma to_json_dict depth h l d j :
  h !! l = Some (ODict d) ->
  to_json depth h (VRef l) = Ok j ->
  exists depth' ms,
    depth = S depth' /\ j = JObj ms
    /\ Forall2 (fun kv m => m.1 = kv.1 /\ to_json depth' h kv.2 = Ok m.2) d ms.
Proof.
  intros Hl H. destruct depth as [|depth']; [discriminate|].
  cbn [to_json] in H. rewrite Hl in H.
  destruct (mapR _ d) as [ms|e] eqn:E; [|discriminate]. injection H as <-.
  exists depth', ms. repeat split. apply mapR_Forall2 in E.
  eapply Forall2_impl; [exact E|]. intros [k v] [k' m]. simpl.
  destruct (to_json depth' h v); [|discriminate]. now intros [= <- <-].
Qed.

Lemma Forall2_keys {V W} (R : V -> W -> Prop)
  (d : list (string * V)) (ms : list (string * W)) :
  Forall2 (fun kv m => m.1 = kv.1 /\ R kv.2 m.2) d ms -> keys ms = keys d.
Proof.
  induction 1 as [|[k1 v1] [k2 m2] d' ms' [Hk _] _ IH]; [reflexivity|].
  cbn [fmap list_fmap fst] in *. now rewrite Hk, IH.
Qed.

Lemma Forall2_assoc_get {V W} (R : V -> W -> Prop)
  (d : list (string * V)) (ms : list (string * W)) k v :
  Forall2 (fun kv m => m.1 = kv.1 /\ R kv.2 m.2) d ms ->
  assoc_get k d = Some v ->
  exists m, assoc_get k ms = Some m /\ R v m.
Proof.
  induction 1 as [|[k1 v1] [k2 m2] d' ms' [Hk HR] _ IH]; [discriminate|].
  simpl in *. subst k2. intros Hget.
  destruct (String.eqb k k1); [injection Hget as <-|]; eauto.
Qed.

Lemma dict_update_nonempty {V} (x : string * V) d items : dict_update (x :: d) items <> [].
Proof.
  assert (G : forall d', length d' <= length (dict_update d' items)).
  { induction items as [|[k v] r IH]; intros d'; [reflexivity|].
    rewrite dict_update_cons. etransitivity; [apply (assoc_set_length k v)|apply IH]. }
  specialize (G (x :: d)). destruct (dict_update (x :: d) items); [simpl in G; lia | discriminate].
Qed.

Lemma dict_of_items_nonempty {V} (x : string * V) items : dict_of_items (x :: items) <> [].
Proof.
  destruct x as [k v]. unfold dict_of_items. rewrite dict_update_cons.
  cbn [assoc_set]. apply dict_update_nonempty.
Qed.

Lemma json_load_Ok j s : exists v s', json_load j s = (Ok v, s').
Proof.
  revert s. induction j as [| | | | |items IH|members IH] using json_ind';
    intros st; try (eexists _, _; reflexivity).
  - assert (T : forall s, exists xs s', traverse json_load items s = (Ok xs, s')).
    { induction IH as [|x r Hx _ IHr]; intros s1; [eexists _, _; reflexivity|].
      destruct (Hx s1) as (v & s2 & Hv). destruct (IHr s2) as (vs & s3 & Hvs).
      exists (v :: vs), s3. cbn [traverse].
      now rewrite (bind_Ok _ _ _ _ _ Hv), (bind_Ok _ _ _ _ _ Hvs). }
    destruct (T st) as (xs & s' & Hxs). cbn [json_load].
    rewrite (bind_Ok _ _ _ _ _ Hxs). eexists _, _. reflexivity.
  - assert (T : forall s, exists kvs s',
                 traverse (fun kv => v <- json_load kv.2 ;; ret (kv.1, v)) members s
                 = (Ok kvs, s')).
    { induction IH as [|x r Hx _ IHr]; intros s1; [eexists _, _; reflexivity|].
      destruct (Hx s1) as (v & s2 & Hv). destruct (IHr s2) as (vs & s3 & Hvs).
      exists ((x.1, v) :: vs), s3. cbn [traverse].
      rewrite (bind_Ok _ _ _ (x.1, v) s2) by now rewrite (bind_Ok _ _ _ _ _ Hv).
      now rewrite (bind_Ok _ _ _ _ _ Hvs). }
    destruct (T st) as (xs & s' & Hxs). cbn [json_load].
    rewrite (bind_Ok _ _ _ _ _ Hxs). eexists _, _. reflexivity.
Qed.

Lemma json_load_obj members s v s' :
  json_load (JObj members) s = (Ok v, s') ->
  exists kvs s1,
    traverse load_member members s = (Ok kvs, s1)
    /\ v = VRef (length (heap s1))
    /\ heap s' = heap s1 ++ [ODict (dict_of_items kvs)]
    /\ files s' = files s1.
Proof.
  cbn [json_load]. intros H. bind_ok H. unfold alloc in H. injection H as <- <-.
  eexists _, _. split; [eassumption|]. auto.
Qed.

Lemma json_load_ref j s l s' d :
  json_load j s = (Ok (VRef l), s') ->
  heap s' !! l = Some (ODict d) ->
  exists members, j = JObj members.
Proof.
  destruct j; cbn [json_load]; intros H Hl; try (injection H; discriminate).
  - bind_ok H. unfold alloc in H. injection H as <- <-. simpl in Hl.
    rewrite list_lookup_middle in Hl by reflexivity. discriminate.
  - eauto.
Qed.

Lemma traverse_length {A B} (f : A -> M B) xs s ys s' :
  traverse f xs s = (Ok ys, s') -> length ys = length xs.
Proof.
  revert s ys. induction xs as [|x r IH]; intros s ys H; cbn [traverse] in H.
  - injection H as <- _. reflexivity.
  - bind_ok H. bind_ok H. injection H as <- <-. simpl. f_equal.
    eapply IH. eassumption.
Qed.

Lemma frame_load_member n kv : frame n (load_member kv) any.
Proof.
  eapply frame_bind; [apply frame_json_load|]. intros v _. now apply frame_ret.
Qed.

Lemma traverse_load_member members s kvs s' :
  traverse load_member members s = (Ok kvs, s') ->
  Forall2 (fun m kv =>
             kv.1 = m.1
             /\ forall x xs, m.2 = JObj (x :: xs) -> nonempty_dict (heap s') kv.2)
    members kvs.
Proof.
  revert s kvs. induction members as [|m r IH]; intros s kvs H; cbn [traverse] in H.
  - injection H as <- _. constructor.
  - apply bind_inv in H as [(kv & sm & Hm & H) | (? & _ & [=])].
    apply bind_inv in H as [(ys & sr & Hr & H) | (? & _ & [=])].
    injection H as <- <-. constructor; [|eauto].
    unfold load_member in Hm.
    apply bind_inv in Hm as [(v & sv & Hv & Hm) | (? & _ & [=])].
    injection Hm as <- <-.
    split; [reflexivity|]. intros y ys' Hy. rewrite Hy in Hv.
    apply json_load_obj in Hv as (kvs0 & s1 & Ht & -> & Hh & _).
    pose proof (traverse_length _ _ _ _ _ Ht) as Hlen.
    destruct kvs0 as [|kv0 kvs0]; [discriminate|].
    destruct (dict_of_items (kv0 :: kvs0)) as [|[k0 v0] rest] eqn:E;
      [now apply dict_of_items_nonempty in E|].
    exists (length (heap s1)), k0, v0, rest. split; [reflexivity|].
    eapply (frame_run (length (heap sv))) in Hr as [K _];
      [| apply frame_traverse; intros; apply frame_load_member | lia].
    rewrite (keeps_lookup _ _ _ _ K); rewrite Hh.
    + now apply list_lookup_middle.
    + rewrite length_app. simpl. lia.
Qed.

Lemma convert_to_1_0_Ok_dict v s new s' :
  convert_to_1_0 v s = (Ok new, s') ->
  exists lo d, v = VRef lo /\ heap s !! lo = Some (ODict d).
Proof.
  unfold convert_to_1_0. intros H.
  apply bind_inv in H as [(a & s1 & Hg & _) | (? & _ & [=])].
  unfold dict_get, load_obj, raise in Hg.
  destruct v; try discriminate.
  destruct (heap s !! l) as [[xs|d]|] eqn:E; try discriminate. eauto.
Qed.

Lemma load_file_Ok path s v s' :
  load_file path s = (Ok v, s') ->
  exists j, files s !! path = Some (JsonText j) /\ json_load j s = (Ok v, s').
Proof.
  unfold load_file. destruct (files s !! path) as [[j|t]|]; try discriminate. eauto.
Qed.

Lemma dump_file_Ok v path s s' :
  dump_file v path s = (Ok tt, s') ->
  exists j, to_json (length (heap s)) (heap s) v = Ok j
            /\ s' = set_files (<[path := JsonText j]> (files s)) s.
Proof.
  unfold dump_file. destruct (to_json _ _ _) as [j|e]; [|discriminate].
  intros [= <-]. eauto.
Qed.

(** Once [migrateFile] has succeeded, running it again on the same path
    raises [TypeError] in the conversion, before anything is renamed or
    written. *)
Lemma migrateFile_twice os path s s1 :
  migrateFile os path s = (Ok tt, s1) ->
  (migrateFile os path s1).1 = Raise TypeError
  /\ files (migrateFile os path s1).2 = files s1.
Proof.
  intros Hrun.
  destruct (migrateFile_cases os path s)
    as [(e & s' & He & _) | (c & config & sA & new & sB & Hc & HL & HC & FB & _ & Hm)];
    [congruence|].
  cbv zeta in Hm. rewrite Hrun in Hm.
  set (sC := set_files _ sB) in Hm.
  destruct (dump_file new path sC) as [[[]|e] sD] eqn:HD; [|discriminate].
  injection Hm as ->.
  apply dump_file_Ok in HD as (j1 & Hj1 & ->).
  (* the first run: a dict was loaded, converted and dumped *)
  destruct (convert_to_1_0_Ok_dict _ _ _ _ HC) as (lo & d & -> & Hd).
  apply load_file_Ok in HL as (j0 & _ & HL).
  destruct (json_load_ref _ _ _ _ _ HL Hd) as [members ->].
  apply json_load_obj in HL as (kvs & s0 & _ & [= ->] & Hh & _).
  rewrite Hh, list_lookup_middle in Hd by reflexivity. injection Hd as <-.
  assert (Hn : NoDup (keys (dict_of_items kvs))) by apply dict_update_NoDup, NoDup_nil_2.
  assert (Hd : heap sA !! length (heap s0) = Some (ODict (dict_of_items kvs)))
    by (rewrite Hh; now apply list_lookup_middle).
  destruct (convert_to_1_0_shape _ _ _ _ _ Hd HC) as (t1 & t2 & lt & p & ln & -> & Hln & Hlt).
  destruct (migrated_get (dict_of_items kvs) t1 t2 (VRef lt) Hn) as (_ & _ & G3).
  simpl in Hj1.
  apply (to_json_dict _ _ _ _ _ Hln) in Hj1 as (depth' & ms & _ & -> & F2).
  pose proof (Forall2_keys (fun v m => to_json depth' (heap sB) v = Ok m) _ _ F2)
    as Hkeys.
  destruct (Forall2_assoc_get (fun v m => to_json depth' (heap sB) v = Ok m)
              _ _ _ _ F2 G3) as (jt & Hjt & Hto).
  apply (to_json_dict _ _ _ _ _ Hlt) in Hto as (depth'' & mt & _ & -> & F2t).
  apply Forall2_cons_inv_l in F2t as (m1 & mt' & _ & _ & ->).
  (* the second run reads that document *)
  rewrite migrateFile_unfold.
  set (s1' := logged _ (logged _ _)).
  assert (Hfile : files s1' !! path = Some (JsonText (JObj ms)))
    by (subst s1' sC; simpl; apply lookup_insert_eq).
  unfold load_file. rewrite Hfile.
  destruct (json_load_Ok (JObj ms) s1') as (config2 & sA2 & HL2). rewrite HL2.
  assert (FA2 : files sA2 = files s1').
  { destruct (frame_json_load 0 (JObj ms) s1' (Nat.le_0_l _)) as [(_ & _ & F) _].
    now rewrite HL2 in F. }
  apply json_load_obj in HL2 as (kvs2 & s02 & Ht2 & -> & Hh2 & _).
  apply traverse_load_member in Ht2.
  assert (Hk2 : keys kvs2 = keys ms).
  { clear -Ht2. induction Ht2 as [|[k m] [k' v] ? ? [Hk _] _ IH]; [reflexivity|].
    cbn [fmap list_fmap fst] in *. now rewrite Hk, IH. }
  assert (Hn2 : NoDup (keys kvs2)).
  { rewrite Hk2, Hkeys. apply dict_update_NoDup, NoDup_nil_2. }
  assert (Hget2 : exists v2, assoc_get "shift_weights" kvs2 = Some v2
                             /\ nonempty_dict (heap s02) v2).
  { clear -Ht2 Hjt. revert Hjt.
    induction Ht2 as [|[k m] [k' v] ms' kvs' [Hk Hv] _ IH]; intros Hjt;
      [discriminate|]. cbn [assoc_get fst snd] in *. subst k'.
    destruct (String.eqb "shift_weights" k); [|auto].
    injection Hjt as ->. eauto. }
  destruct Hget2 as (v2 & Hget2 & (l2 & k0 & v0 & rest & -> & Hl2)).
  pose proof (convert_to_1_0_migrated sA2 (length (heap s02)) kvs2 l2 k0 v0 rest) as HT.
  rewrite Hh2, list_lookup_middle, (dict_of_items_NoDup _ Hn2) in HT by reflexivity.
  specialize (HT eq_refl Hget2).
  rewrite lookup_app_l_Some with (x := ODict ((k0, v0) :: rest)) in HT by assumption.
  specialize (HT eq_refl).
  destruct (frame_convert_to_1_0 0 (VRef (length (heap s02))) sA2 (Nat.le_0_l _))
    as [(_ & _ & F) _].
  destruct (convert_to_1_0 _ sA2) as [r sB2]. simpl in *. subst r.
  split; [reflexivity|]. cbn [snd]. now rewrite F, FA2.
Qed.

(** ** The claims about bad entries, the backup and the formulas *)



(** On Windows, a file at the backup location: once the configuration
    has been loaded and converted, the rename raises. *)
Lemma migrateFile_backup_exists path s b config sA new sB :
  files s !! (path +:+ ".bak") = Some b ->
  load_file path (logged ("loading " +:+ path) s) = (Ok config, sA) ->
  convert_to_1_0 config sA = (Ok new, sB) ->
  migrateFile Windows path s = (Raise FileExistsError, sB).
Proof.
  intros Hb HL HC. rewrite migrateFile_unfold, HL, HC.
  assert (FB : files sB = files s).
  { destruct (frame_load_file 0 path (logged ("loading " +:+ path) s) (Nat.le_0_l _))
      as [(_ & _ & F1) _].
    destruct (frame_convert_to_1_0 0 config sA (Nat.le_0_l _)) as [(_ & _ & F2) _].
    rewrite HL in F1. rewrite HC in F2. simpl in *. congruence. }
  apply load_file_Ok in HL as (j & Hj & _). simpl in Hj.
  unfold os_rename. now rewrite FB, Hj, Hb.
Qed.

(** C4 (amended): in [migrateFile] nothing is written before the rename:
    either the disk is as it was, or the backup location holds what
    [path] held.  Where [os.rename] refuses an existing destination
    (Windows), a file at the backup location makes [migrateFile] raise
    and leaves the disk as it was; the error is [FileExistsError], from
    the rename, once the file has been loaded and converted.  After a
    run that succeeded, a second run on the same path raises
    [TypeError] and leaves the disk as the first run left it. *)
Theorem migrateFile_backup os path s :
  (files (migrateFile os path s).2 = files s
   \/ exists c, files s !! path = Some c
                /\ files (migrateFile os path s).2 !! (path +:+ ".bak") = Some c)
  /\ (os = Windows ->
      is_Some (files s !! (path +:+ ".bak")) ->
      (exists e, (migrateFile os path s).1 = Raise e)
      /\ files (migrateFile os path s).2 = files s
      /\ forall config sA new sB,
          load_file path (logged ("loading " +:+ path) s) = (Ok config, sA) ->
          convert_to_1_0 config sA = (Ok new, sB) ->
          (migrateFile os path s).1 = Raise FileExistsError)
  /\ ((migrateFile os path s).1 = Ok tt ->
      (migrateFile os path (migrateFile os path s).2).1 = Raise TypeError
      /\ files (migrateFile os path (migrateFile os path s).2).2
         = files (migrateFile os path s).2).
Proof.
  split; [|split].
  - destruct (migrateFile_cases os path s)
      as [(e & s' & -> & F) | (c & config & sA & new & sB & Hc & _ & _ & FB & _ & Hm)].
    + now left.
    + right. exists c. split; [assumption|]. cbv zeta in Hm. rewrite Hm.
      set (sC := set_files _ sB).
      destruct (dump_file_files new path sC) as [c' Hc'].
      assert (G : files (dump_file new path sC).2 !! (path +:+ ".bak") = Some c).
      { rewrite Hc'. rewrite lookup_insert_ne by (apply not_eq_sym, backup_path_ne).
        subst sC. simpl. apply lookup_insert_eq. }
      destruct (dump_file new path sC) as [[[]|e] sD]; exact G.
  - intros -> [b Hb]. split; [|split].
    + destruct (migrateFile_cases Windows path s)
        as [(e & s' & -> & F) | (c & config & sA & new & sB & _ & _ & _ & _ & Hw & _)];
        [eauto|]. rewrite (Hw eq_refl) in Hb. discriminate.
    + destruct (migrateFile_cases Windows path s)
        as [(e & s' & -> & F) | (c & config & sA & new & sB & _ & _ & _ & _ & Hw & _)];
        [assumption|]. rewrite (Hw eq_refl) in Hb. discriminate.
    + intros config sA new sB HL HC.
      now rewrite (migrateFile_backup_exists path s b config sA new sB Hb HL HC).
  - intros Hok. destruct (migrateFile os path s) as [r s1] eqn:Hrun.
    simpl in Hok. subst r. now apply migrateFile_twice in Hrun.
Qed.

(** C9: at [size = 1] the four functions do not agree: [get_max_radii]
    returns one radius, the other three return none. *)
Theorem get_max_radii_size_1 :
  get_max_radii 1 = [NFloat 0]
  /\ get_max_radii_simpl 1 = []
  /\ totally_cursed 1 = []
  /\ even_more_cursed 1 = [].
Proof. repeat split. Qed.

(** * Instances *)








Lemma convert_to_1_0_does_not_mutate_example :
  is_dict (heap (convert_to_1_0 (VRef 5) (state_of example_legacy)).2) (VRef 5)
    (entries_of (state_of example_legacy) 5)
  /\ take (length (heap (state_of example_legacy)))
       (heap (convert_to_1_0 (VRef 5) (state_of example_legacy)).2)
     = heap (state_of example_legacy)
  /\ forall new, (convert_to_1_0 (VRef 5) (state_of example_legacy)).1 = Ok new ->
       new <> VRef 5
       /\ fresh (length (heap (state_of example_legacy))) new
       /\ exists d', is_dict (heap (convert_to_1_0 (VRef 5) (state_of example_legacy)).2)
                       new d'.
Proof.
  apply (convert_to_1_0_does_not_mutate (state_of example_legacy) (VRef 5)
           (entries_of (state_of example_legacy) 5)).
  reflexivity.
Defined.




(** On Windows the earlier backup stops the migration; on a disk without
    one, a second run stops in the conversion. *)
Lemma migrateFile_backup_example :
  ((exists e, (migrateFile Windows "cfg.json" disk_with_backup).1 = Raise e)
   /\ files (migrateFile Windows "cfg.json" disk_with_backup).2
      = files disk_with_backup
   /\ forall config sA new sB,
       load_file "cfg.json" (logged ("loading " +:+ "cfg.json") disk_with_backup)
       = (Ok config, sA) ->
       convert_to_1_0 config sA = (Ok new, sB) ->
       (migrateFile Windows "cfg.json" disk_with_backup).1 = Raise FileExistsError)
  /\ ((migrateFile Posix "cfg.json" (migrateFile Posix "cfg.json" disk).2).1
      = Raise TypeError
      /\ files (migrateFile Posix "cfg.json" (migrateFile Posix "cfg.json" disk).2).2
         = files (migrateFile Posix "cfg.json" disk).2).
Proof.
  split.
  - apply (proj1 (proj2 (migrateFile_backup Windows "cfg.json" disk_with_backup))).
    + reflexivity.
    + vm_compute. eexists. reflexivity.
  - apply (proj2 (proj2 (migrateFile_backup Posix "cfg.json" disk))).
    vm_compute. reflexivity.
Defined.

(** On POSIX a file already at the backup location is replaced, and the
    migration succeeds. *)
Lemma migrateFile_replaces_backup :
  files disk_with_backup !! "cfg.json.bak" = Some (RawText "an earlier backup")
  /\ (migrateFile Posix "cfg.json" disk_with_backup).1 = Ok tt
  /\ files (migrateFile Posix "cfg.json" disk_with_backup).2 !! "cfg.json.bak"
     = Some (JsonText example_legacy).
Proof. repeat split; vm_compute; reflexivity. Qed.

(** * The rest of the script and of the formulas *)

(** ** What a run leaves alone *)

Section Preserves.
Context {X : Type} (proj : state -> X).

Lemma preserves_ret {A} (a : A) : preserves proj (ret a).
Proof. now intros s. Qed.

Lemma preserves_raise {A} e : preserves proj (raise (A:=A) e).
Proof. now intros s. Qed.

Lemma preserves_lift {A} (r : result A) : preserves proj (lift r).
Proof. now intros s. Qed.

Lemma preserves_bind {A B} (m : M A) (k : A -> M B) :
  preserves proj m -> (forall a, preserves proj (k a)) -> preserves proj (bind m k).
Proof.
  intros Hm Hk s. unfold bind. specialize (Hm s).
  destruct (m s) as [[a|e] s1]; simpl in *; [|assumption].
  now rewrite Hk.
Qed.

Lemma preserves_load_obj {A} v (other : M A) k :
  preserves proj other -> (forall o, preserves proj (k o)) ->
  preserves proj (load_obj v other k).
Proof.
  intros Ho Hk s. unfold load_obj.
  destruct v; try apply Ho. destruct (heap s !! l); [apply Hk | reflexivity].
Qed.

Lemma preserves_traverse {A B} (f : A -> M B) xs :
  (forall x, preserves proj (f x)) -> preserves proj (traverse f xs).
Proof.
  intros Hf. induction xs as [|x xs IH]; [apply preserves_ret|].
  cbn [traverse]. apply preserves_bind; [apply Hf|]. intros y.
  apply preserves_bind; [exact IH|]. intros ys. apply preserves_ret.
Qed.

Lemma preserves_for_each {A} (f : A -> M unit) xs :
  (forall x, preserves proj (f x)) -> preserves proj (for_each f xs).
Proof.
  intros Hf. induction xs as [|x xs IH]; [apply preserves_ret|].
  cbn [for_each]. apply preserves_bind; [apply Hf | intros _; exact IH].
Qed.

Hypothesis proj_heap : forall h s, proj (set_heap h s) = proj s.

Lemma preserves_alloc o : preserves proj (alloc o).
Proof. intros s. apply proj_heap. Qed.

Lemma preserves_store_obj l o : preserves proj (store_obj l o).
Proof. intros s. apply proj_heap. Qed.

Lemma preserves_py_iter v : preserves proj (py_iter v).
Proof.
  apply preserves_load_obj.
  - destruct v; first [apply preserves_ret | apply preserves_raise].
  - intros []; apply preserves_ret.
Qed.

Lemma preserves_py_sum v : preserves proj (py_sum v).
Proof.
  apply preserves_bind; [apply preserves_py_iter|]. intros xs.
  apply preserves_bind; [apply preserves_lift | intros; apply preserves_ret].
Qed.

Lemma preserves_py_truediv a b : preserves proj (py_truediv a b).
Proof.
  unfold py_truediv. destruct (as_num a), (as_num b); try apply preserves_raise.
  apply preserves_bind; [apply preserves_lift | intros; apply preserves_ret].
Qed.

Lemma preserves_py_getitem v i : preserves proj (py_getitem v i).
Proof.
  apply preserves_load_obj.
  - destruct v; first [apply preserves_lift | apply preserves_raise].
  - intros []; first [apply preserves_lift | apply preserves_raise].
Qed.

Lemma preserves_list_comp body v :
  (forall x, preserves proj (body x)) -> preserves proj (list_comp body v).
Proof.
  intros Hb. apply preserves_bind; [apply preserves_py_iter|]. intros xs.
  apply preserves_bind; [now apply preserves_traverse|]. intros ys. apply preserves_alloc.
Qed.

Lemma preserves_dict_get d key dflt :
  preserves proj dflt -> preserves proj (dict_get d key dflt).
Proof.
  intros Hd. apply preserves_load_obj; [apply preserves_raise|].
  intros []; [apply preserves_raise|].
  apply preserves_bind; [exact Hd | intros; apply preserves_ret].
Qed.

Lemma preserves_py_copy d : preserves proj (py_copy d).
Proof. apply preserves_load_obj; [apply preserves_raise | apply preserves_alloc]. Qed.

Lemma preserves_py_setitem d key v : preserves proj (py_setitem d key v).
Proof.
  apply preserves_load_obj; [apply preserves_raise|].
  intros []; destruct d; first [apply preserves_raise | apply preserves_store_obj].
Qed.

Lemma preserves_dict_items d : preserves proj (dict_items d).
Proof.
  apply preserves_load_obj; [apply preserves_raise|].
  intros []; first [apply preserves_raise | apply preserves_ret].
Qed.

Lemma preserves_insert_at_position d key v position :
  preserves proj (insert_at_position d key v position).
Proof.
  apply preserves_bind; [apply preserves_dict_items | intros; apply preserves_alloc].
Qed.

Lemma preserves_json_load j : preserves proj (json_load j).
Proof.
  induction j as [| | | | |items IH|members IH] using json_ind';
    try apply preserves_ret.
  - cbn [json_load]. apply preserves_bind; [|intros; apply preserves_alloc].
    induction IH as [|x xs Hx _ IHxs]; [apply preserves_ret|].
    cbn [traverse]. apply preserves_bind; [exact Hx|]. intros y.
    apply preserves_bind; [exact IHxs | intros; apply preserves_ret].
  - cbn [json_load]. apply preserves_bind; [|intros; apply preserves_alloc].
    induction IH as [|x xs Hx _ IHxs]; [apply preserves_ret|].
    cbn [traverse]. apply preserves_bind.
    + apply preserves_bind; [exact Hx | intros; apply preserves_ret].
    + intros y. apply preserves_bind; [exact IHxs | intros; apply preserves_ret].
Qed.

Lemma preserves_load_file path : preserves proj (load_file path).
Proof.
  intros s. unfold load_file. destruct (files s !! path) as [[j|t]|]; try reflexivity.
  apply preserves_json_load.
Qed.

End Preserves.

Lemma outside_heap h s : outside (set_heap h s) = outside s.
Proof. reflexivity. Qed.

Lemma logs_heap h s : logs (set_heap h s) = logs s.
Proof. reflexivity. Qed.

Lemma stdout_heap h s : stdout (set_heap h s) = stdout s.
Proof. reflexivity. Qed.

Lemma files_heap h s : files (set_heap h s) = files s.
Proof. reflexivity. Qed.

Lemma emits_bind {A B} (m : M A) (k : A -> M B) line :
  preserves logs m -> (forall a, emits (k a) line) -> emits (bind m k) line.
Proof.
  intros Hm Hk s. unfold bind. specialize (Hm s).
  destruct (m s) as [[a|e] s1]; simpl in *; [|assumption].
  specialize (Hk a s1). rewrite Hm in Hk. exact Hk.
Qed.

Lemma emits_logger_info {A} line (a : A) : emits (logger_info line ;;; ret a) line.
Proof. now intros s. Qed.

Ltac quiet H :=
  repeat first
    [ exact H
    | apply preserves_ret
    | apply preserves_alloc
    | apply preserves_dict_get
    | apply preserves_list_comp; [|intro]
    | apply preserves_py_sum
    | apply preserves_py_truediv
    | apply preserves_py_getitem
    | apply preserves_py_copy
    | apply preserves_py_setitem
    | apply preserves_insert_at_position
    | apply preserves_bind; [|intro] ].

Lemma emits_convert_to_1_0 old_json :
  emits (convert_to_1_0 old_json) "> updated to version 1.0".
Proof.
  unfold convert_to_1_0.
  repeat (apply emits_bind; [solve [quiet logs_heap] | intro]).
  apply emits_logger_info.
Qed.

Lemma preserves_convert_to_1_0 {X} (proj : state -> X) old_json :
  (forall h s, proj (set_heap h s) = proj s) ->
  (forall msg s, proj (logged msg s) = proj s) ->
  preserves proj (convert_to_1_0 old_json).
Proof.
  intros H Hl. unfold convert_to_1_0. quiet H. intros s. apply Hl.
Qed.

(** X1: [convert_to_1_0] touches neither the files nor the standard
    output, and it logs its one line exactly when it returns: a run that
    raises has logged nothing. *)
Theorem convert_to_1_0_logs old_json s :
  files (convert_to_1_0 old_json s).2 = files s
  /\ stdout (convert_to_1_0 old_json s).2 = stdout s
  /\ match (convert_to_1_0 old_json s).1 with
     | Ok _ => logs (convert_to_1_0 old_json s).2 = logs s ++ ["> updated to version 1.0"]
     | Raise _ => logs (convert_to_1_0 old_json s).2 = logs s
     end.
Proof.
  split; [|split].
  - now apply (preserves_convert_to_1_0 files).
  - now apply (preserves_convert_to_1_0 stdout).
  - apply emits_convert_to_1_0.
Qed.

(** ** [insert_at_position] on its own *)

Lemma insert_at_position_run d key v position s entries :
  is_dict (heap s) d entries ->
  insert_at_position d key v position s
  = (Ok (VRef (length (heap s))),
     set_heap (heap s ++ [ODict (dict_of_items (list_insert_at entries position (key, v)))]) s).
Proof.
  intros Hd. unfold insert_at_position.
  erewrite bind_Ok by (apply dict_items_run; exact Hd). reflexivity.
Qed.

Lemma list_insert_at_index {A} (items : list A) position x :
  exists i,
    list_insert_at items position x = take i items ++ x :: drop i items
    /\ i <= length items
    /\ ((0 <= position)%Z -> i = Z.to_nat position `min` length items)
    /\ ((position < 0)%Z -> i = Z.to_nat (position + Z.of_nat (length items))).
Proof.
  unfold list_insert_at. destruct (Z.ltb_spec position 0).
  - eexists. split; [reflexivity|]. repeat split; lia.
  - eexists. split; [reflexivity|]. repeat split; lia.
Qed.

(** X2: on a dict that does not have [key], [insert_at_position] returns
    a new dict with the pair at index [i] and the entries of [d] around
    it in their order, where [i] is [position] clamped to the length of
    [d], counted from the end when it is negative; [d] itself is as it
    was. *)
Theorem insert_at_position_new_key s d entries key v position :
  is_dict (heap s) d entries ->
  NoDup (keys entries) ->
  key ∉ keys entries ->
  exists new s' i,
    insert_at_position d key v position s = (Ok new, s')
    /\ is_dict (heap s') new (take i entries ++ (key, v) :: drop i entries)
    /\ is_dict (heap s') d entries
    /\ new <> d
    /\ i <= length entries
    /\ ((0 <= position)%Z -> i = Z.to_nat position `min` length entries)
    /\ ((position < 0)%Z -> i = Z.to_nat (position + Z.of_nat (length entries))).
Proof.
  intros Hd Hn Hk.
  destruct (list_insert_at_index entries position (key, v)) as (i & Hi & Hle & Hpos & Hneg).
  exists (VRef (length (heap s))), (set_heap (heap s ++ [ODict (take i entries ++ (key, v) :: drop i entries)]) s), i.
  split; [|split; [|split; [|split]]]; try (repeat split; assumption).
  - rewrite (insert_at_position_run _ _ _ _ _ _ Hd), Hi, dict_of_items_NoDup; [reflexivity|].
    rewrite fmap_app, fmap_cons. cbn [fst]. apply NoDup_app. 
    rewrite <- (take_drop i entries), fmap_app in Hn, Hk.
    apply NoDup_app in Hn as (H1 & H2 & H3). rewrite elem_of_app in Hk.
    split; [assumption|]. split.
    + intros x Hx. rewrite elem_of_cons. intros [->|Hx']; [tauto | now apply (H2 x)].
    + apply NoDup_cons; tauto.
  - unfold is_dict, deref, set_heap; simpl. now apply list_lookup_middle.
  - unfold is_dict, set_heap; simpl. now apply deref_old.
  - intros <-. unfold is_dict, deref in Hd. apply lookup_lt_Some in Hd. lia.
Qed.

Lemma keys_middle {V} (a m p : list (string * V)) k v :
  NoDup (keys (a ++ (k, v) :: m ++ p)) ->
  forall v', NoDup (keys (a ++ m ++ (k, v') :: p)).
Proof.
  intros H v'. eapply NoDup_Permutation_proper; [|exact H].
  rewrite !fmap_app, !fmap_cons, !fmap_app. cbn [fst].
  apply Permutation_app_head. symmetry. apply Permutation_middle.
Qed.

(** X3: on a dict that already has [key], at index [k] with value [old],
    [insert_at_position] never does both things it is asked: when [k] is
    before the insertion index the key stays where it is and takes the
    new value, otherwise the key moves to the insertion index and keeps
    its old value. *)
Theorem insert_at_position_existing_key s d entries key v position k old :
  is_dict (heap s) d entries ->
  NoDup (keys entries) ->
  entries !! k = Some (key, old) ->
  exists new s' d' i,
    insert_at_position d key v position s = (Ok new, s')
    /\ is_dict (heap s') new d'
    /\ i <= length entries
    /\ ((0 <= position)%Z -> i = Z.to_nat position `min` length entries)
    /\ ((position < 0)%Z -> i = Z.to_nat (position + Z.of_nat (length entries)))
    /\ (k < i -> d' = <[k := (key, v)]> entries)
    /\ (i <= k -> d' = take i entries ++ (key, old) :: drop i (delete k entries)).
Proof.
  intros Hd Hn Hk.
  destruct (list_insert_at_index entries position (key, v)) as (i & Hi & Hle & Hpos & Hneg).
  eexists _, _, _, i. split; [apply insert_at_position_run; exact Hd|].
  split; [unfold is_dict, deref, set_heap; simpl; now apply list_lookup_middle|].
  split; [assumption|]. split; [assumption|]. split; [assumption|].
  rewrite Hi.
  pose proof (take_drop_middle _ _ _ Hk) as He.
  pose proof (lookup_lt_Some _ _ _ Hk) as Hlt.
  set (a := take k entries) in *. set (b := drop (S k) entries) in *.
  assert (La : length a = k) by (subst a; rewrite length_take; lia).
  split.
  - intros Hki. rewrite <- He in *.
    replace i with (length a + S (i - k - 1)) by lia.
    rewrite take_app_add, drop_app_add. cbn [take drop].
    rewrite <- (take_drop (i - k - 1) b) in Hn.
    rewrite <- app_assoc. cbn [app].
    rewrite (dict_of_items_twice a key old (take (i - k - 1) b) v (drop (i - k - 1) b))
      by (eapply keys_middle; exact Hn).
    rewrite take_drop.
    replace k with (length a + 0) at 1 by lia.
    now rewrite insert_app_r.
  - intros Hik. rewrite <- He in *.
    assert (Ea : exists a1 a2, a = a1 ++ a2 /\ length a1 = i).
    { exists (take i a), (drop i a). rewrite take_drop, length_take. split; [reflexivity | lia]. }
    clearbody a b. destruct Ea as (a1 & a2 & -> & L1).
    subst i k. rewrite <- !app_assoc in *.
    rewrite take_app_length, drop_app_length.
    rewrite (dict_of_items_twice a1 key v a2 old b) by exact Hn.
    rewrite app_assoc, delete_middle, <- app_assoc, drop_app_length. reflexivity.
Qed.

Lemma dict_items_not_dict d s :
  not_a_dict (heap s) d -> dict_items d s = (Raise AttributeError, s).
Proof.
  intros [H | [xs H]]; unfold dict_items, load_obj.
  - destruct d; try reflexivity. discriminate.
  - destruct d; try discriminate. unfold is_list, deref in H. now rewrite H.
Qed.

Lemma dict_get_not_dict d key dflt s :
  not_a_dict (heap s) d -> dict_get d key dflt s = (Raise AttributeError, s).
Proof.
  intros [H | [xs H]]; unfold dict_get, load_obj.
  - destruct d; try reflexivity. discriminate.
  - destruct d; try discriminate. unfold is_list, deref in H. now rewrite H.
Qed.

Lemma convert_to_1_0_not_dict old_json s :
  not_a_dict (heap s) old_json -> convert_to_1_0 old_json s = (Raise AttributeError, s).
Proof.
  intros H. unfold convert_to_1_0. apply bind_Raise. now apply dict_get_not_dict.
Qed.

(** X4: [insert_at_position] changes no object of the heap it is called
    on and nothing outside the heap; what it returns is a new dict, in
    the one cell it allocates; on a value that is no dict it raises
    [AttributeError] and leaves the state as it was. *)
Theorem insert_at_position_no_mutation d key v position s :
  take (length (heap s)) (heap (insert_at_position d key v position s).2) = heap s
  /\ outside (insert_at_position d key v position s).2 = outside s
  /\ (forall new, (insert_at_position d key v position s).1 = Ok new ->
      new = VRef (length (heap s)) /\ new <> d
      /\ length (heap (insert_at_position d key v position s).2) = S (length (heap s))
      /\ exists entries, is_dict (heap s) d entries)
  /\ (not_a_dict (heap s) d ->
      insert_at_position d key v position s = (Raise AttributeError, s)).
Proof.
  split; [|split; [|split]].
  - destruct (frame_insert_at_position (length (heap s)) d key v position s (le_n _))
      as [(_ & H & _) _].
    now rewrite H, firstn_all.
  - now apply (preserves_insert_at_position outside).
  - intros new H.
    destruct (insert_at_position d key v position s) as [r s'] eqn:E. simpl in H. subst r.
    unfold insert_at_position in E. bind_ok E.
    unfold dict_items, load_obj in H.
    destruct d as [| | | | |l]; try discriminate.
    destruct (heap s !! l) as [[xs|entries]|] eqn:Hl; try discriminate.
    injection H as <- <-. injection E as <- <-. simpl.
    split; [reflexivity|]. split.
    + intros [= El]. rewrite <- El in Hl. apply lookup_lt_Some in Hl. lia.
    + split; [rewrite length_app; simpl; lia | now exists entries].
  - intros H. unfold insert_at_position. apply bind_Raise. now apply dict_items_not_dict.
Qed.

(** ** Inputs the conversion refuses *)

(** X5: on a value that is no dict (null, a number, a string, a list),
    [convert_to_1_0] raises [AttributeError] at its first [get] and
    leaves the state as it was. *)
Theorem convert_to_1_0_refuses_non_dict old_json s :
  not_a_dict (heap s) old_json ->
  convert_to_1_0 old_json s = (Raise AttributeError, s).
Proof.
  intros H. unfold convert_to_1_0. apply bind_Raise.
  now apply dict_get_not_dict.
Qed.




(** ** [migrateFile] and [main] *)

Lemma json_load_not_dict j s v s' :
  (forall ms, j <> JObj ms) -> json_load j s = (Ok v, s') -> not_a_dict (heap s') v.
Proof.
  intros Hj H. destruct j; try (injection H as <- <-; now left).
  - right. cbn [json_load] in H. bind_ok H. unfold alloc in H. injection H as <- <-.
    eexists. unfold is_list, deref, set_heap; simpl. now apply list_lookup_middle.
  - now destruct (Hj members).
Qed.

Lemma os_rename_keeps os src dst s :
  heap (os_rename os src dst s).2 = heap s
  /\ logs (os_rename os src dst s).2 = logs s
  /\ stdout (os_rename os src dst s).2 = stdout s.
Proof.
  unfold os_rename. destruct (files s !! src); [|easy].
  destruct os; [easy|]. now destruct (files s !! dst).
Qed.

Lemma dump_file_keeps v path s :
  heap (dump_file v path s).2 = heap s
  /\ logs (dump_file v path s).2 = logs s
  /\ stdout (dump_file v path s).2 = stdout s.
Proof. unfold dump_file. now destruct (to_json _ _ _). Qed.

(** X7: a path that names no file makes [migrateFile] raise
    [FileNotFoundError], text that is not JSON [JSONDecodeError], and a
    document whose top level is not an object [AttributeError]; in each
    case the disk is as it was and only the line [loading <path>] has
    been logged. *)
Theorem migrateFile_unreadable os path s :
  (files s !! path = None ->
   migrateFile os path s = (Raise FileNotFoundError, logged ("loading " +:+ path) s))
  /\ (forall t, files s !! path = Some (RawText t) ->
      migrateFile os path s = (Raise JSONDecodeError, logged ("loading " +:+ path) s))
  /\ (forall j, files s !! path = Some (JsonText j) -> (forall ms, j <> JObj ms) ->
      (migrateFile os path s).1 = Raise AttributeError
      /\ files (migrateFile os path s).2 = files s
      /\ logs (migrateFile os path s).2 = logs s ++ ["loading " +:+ path]).
Proof.
  split; [|split].
  - intros H. rewrite migrateFile_unfold. unfold load_file. simpl. now rewrite H.
  - intros t H. rewrite migrateFile_unfold. unfold load_file. simpl. now rewrite H.
  - intros j H Hj. rewrite migrateFile_unfold.
    destruct (load_file path (logged ("loading " +:+ path) s)) as [r sA] eqn:HL.
    pose proof (preserves_load_file outside outside_heap path (logged ("loading " +:+ path) s)) as HO.
    rewrite HL in HO. simpl in HO. injection HO as Hf Hlg _.
    unfold load_file in HL. simpl in HL. rewrite H in HL.
    destruct (json_load_Ok j (logged ("loading " +:+ path) s)) as (v & s1 & Hv).
    rewrite Hv in HL. injection HL as <- <-.
    rewrite convert_to_1_0_not_dict by (eapply json_load_not_dict; eassumption).
    simpl. auto.
Qed.

Lemma migrateFile_stdout os path : preserves stdout (migrateFile os path).
Proof.
  unfold migrateFile. apply preserves_bind; [now intros s|]. intros _.
  apply preserves_bind; [apply preserves_load_file, stdout_heap|]. intros config.
  apply preserves_bind; [now apply preserves_convert_to_1_0|]. intros new.
  apply preserves_bind; [intros s; apply os_rename_keeps|]. intros _.
  apply preserves_bind; [intros s; apply dump_file_keeps|]. intros _.
  now intros s.
Qed.

(** X8: [migrateFile] prints nothing.  A run that returns has logged
    three lines: [loading <path>], the line of the conversion, and
    [saved <path>]; a run that raises has logged the first, or the first
    two. *)
Theorem migrateFile_logs os path s :
  stdout (migrateFile os path s).2 = stdout s
  /\ match (migrateFile os path s).1 with
     | Ok _ =>
         logs (migrateFile os path s).2
         = logs s ++ ["loading " +:+ path; "> updated to version 1.0"; "saved " +:+ path]
     | Raise _ =>
         logs (migrateFile os path s).2 = logs s ++ ["loading " +:+ path]
         \/ logs (migrateFile os path s).2
            = logs s ++ ["loading " +:+ path; "> updated to version 1.0"]
     end.
Proof.
  rewrite migrateFile_unfold.
  pose proof (preserves_load_file outside outside_heap path (logged ("loading " +:+ path) s)) as HL.
  destruct (load_file path (logged ("loading " +:+ path) s)) as [[config|e] sA].
  all: injection HL as _ HlA HoA; simpl in HlA, HoA.
  2: { simpl. rewrite HlA, HoA. auto. }
  pose proof (preserves_convert_to_1_0 stdout config stdout_heap (fun _ _ => eq_refl) sA) as HoB.
  pose proof (emits_convert_to_1_0 config sA) as HlB.
  destruct (convert_to_1_0 config sA) as [[new|e] sB]; simpl in *.
  2: { rewrite HoB, HoA, HlB, HlA. auto. }
  destruct (os_rename_keeps os path (path +:+ ".bak") sB) as (_ & HlC & HoC).
  destruct (os_rename os path (path +:+ ".bak") sB) as [[[]|e] sC]; simpl in *.
  2: { rewrite HoC, HoB, HoA, HlC, HlB, HlA, <- app_assoc. auto. }
  destruct (dump_file_keeps new path sC) as (_ & HlD & HoD).
  destruct (dump_file new path sC) as [[[]|e] sD]; simpl in *.
  - rewrite HoD, HoC, HoB, HoA, HlD, HlC, HlB, HlA, <- !app_assoc. auto.
  - rewrite HoD, HoC, HoB, HoA, HlD, HlC, HlB, HlA, <- !app_assoc. auto.
Qed.

Lemma migrateFile_other_files os path s q :
  q <> path -> q <> path +:+ ".bak" ->
  files (migrateFile os path s).2 !! q = files s !! q.
Proof.
  intros H1 H2.
  destruct (migrateFile_cases os path s)
    as [(e & s' & -> & F) | (c & config & sA & new & sB & Hc & _ & _ & FB & _ & Hm)].
  - simpl. now rewrite F.
  - cbv zeta in Hm. rewrite Hm.
    set (sC := set_files _ sB).
    destruct (dump_file_files new path sC) as [c' Hc'].
    assert (G : files (dump_file new path sC).2 !! q = files s !! q).
    { rewrite Hc'. rewrite lookup_insert_ne by auto. subst sC. simpl.
      rewrite lookup_insert_ne by auto. now rewrite lookup_delete_ne by auto. }
    destruct (dump_file new path sC) as [[[]|e] sD]; exact G.
Qed.

Lemma for_each_other_files os paths s q :
  (forall p, p ∈ paths -> q <> p /\ q <> p +:+ ".bak") ->
  files (for_each (migrateFile os) paths s).2 !! q = files s !! q.
Proof.
  revert s. induction paths as [|p paths IH]; intros s H; [reflexivity|].
  cbn [for_each]. unfold bind.
  pose proof (migrateFile_other_files os p s q) as Hp.
  destruct (migrateFile os p s) as [[[]|e] s1]; simpl in *.
  - rewrite IH by (intros; apply H; now right). apply Hp; apply H; now left.
  - apply Hp; apply H; now left.
Qed.

(** X9: [main] touches no file other than the paths it is given and
    their [.bak] neighbours. *)
Theorem main_touches_only os argv s q :
  (forall p, p ∈ drop 1 argv -> q <> p /\ q <> p +:+ ".bak") ->
  files (main os argv s).2 !! q = files s !! q.
Proof.
  intros H. unfold main. destruct (length argv <? 2)%nat; [reflexivity|].
  now apply for_each_other_files.
Qed.

Lemma for_each_first_failure {A} (f : A -> M unit) done p rest s s1 e s2 :
  for_each f done s = (Ok tt, s1) -> f p s1 = (Raise e, s2) ->
  for_each f (done ++ p :: rest) s = (Raise e, s2).
Proof.
  revert s. induction done as [|x done IH]; intros s Hd Hp.
  - injection Hd as <-. cbn [app for_each]. now apply bind_Raise.
  - cbn [app for_each] in *. apply bind_inv in Hd as [(a & sx & Hx & Hd) | (? & _ & [=])].
    erewrite bind_Ok by exact Hx. now apply IH.
Qed.

(** X10: [main] stops at the first path whose migration raises: the
    exception is the result of [main], the paths after it are not
    processed, and the failed migration has left every file other than
    its own two alone. *)
Theorem main_stops_at_first_failure os prog done p rest s s1 e s2 :
  for_each (migrateFile os) done s = (Ok tt, s1) ->
  migrateFile os p s1 = (Raise e, s2) ->
  main os (prog :: done ++ p :: rest) s = (Raise e, s2)
  /\ forall q, q <> p -> q <> p +:+ ".bak" -> files s2 !! q = files s1 !! q.
Proof.
  intros Hd Hp. split.
  - unfold main. replace (length _ <? 2)%nat with false.
    + cbn [drop]. eapply for_each_first_failure; eassumption.
    + symmetry. apply Nat.ltb_ge. cbn [length]. rewrite length_app. simpl. lia.
  - intros q H1 H2. pose proof (migrateFile_other_files os p s1 q H1 H2) as H.
    now rewrite Hp in H.
Qed.

(** X11: without a path argument [main] prints the usage line, raises
    [SystemExit(1)] and touches nothing else; with at least one path it
    prints nothing. *)
Theorem main_usage os argv s :
  (length argv < 2 ->
   main os argv s
   = (Raise (SystemExit 1),
      mkState (heap s) (files s) (logs s)
        (stdout s ++ ["Usage: python converter.py <file1> <file2> ... <fileN>"])))
  /\ (2 <= length argv -> stdout (main os argv s).2 = stdout s).
Proof.
  split; intros H; unfold main.
  - apply Nat.ltb_lt in H. now rewrite H.
  - apply Nat.ltb_ge in H. rewrite H. apply preserves_for_each.
    intros p. apply migrateFile_stdout.
Qed.

(** ** From document to document *)



Section Related.
Context {V W : Type} (R : V -> W -> Prop).






End Related.























(** ** More about the radius formulas *)














(** ** Instances *)

(** ["version"] put before the last entry of the example. *)
Lemma insert_at_position_new_key_example :
  exists new s' i,
    insert_at_position (VRef 5) "version" (VStr "1.0") (-1) (state_of example_legacy)
    = (Ok new, s')
    /\ is_dict (heap s') new
         (take i (entries_of (state_of example_legacy) 5)
            ++ ("version", VStr "1.0") :: drop i (entries_of (state_of example_legacy) 5))
    /\ is_dict (heap s') (VRef 5) (entries_of (state_of example_legacy) 5)
    /\ new <> VRef 5
    /\ i <= length (entries_of (state_of example_legacy) 5)
    /\ ((0 <= -1)%Z ->
        i = Z.to_nat (-1) `min` length (entries_of (state_of example_legacy) 5))
    /\ ((-1 < 0)%Z ->
        i = Z.to_nat (-1 + Z.of_nat (length (entries_of (state_of example_legacy) 5)))).
Proof.
  apply (insert_at_position_new_key (state_of example_legacy) (VRef 5)
           (entries_of (state_of example_legacy) 5) "version" (VStr "1.0") (-1)).
  - reflexivity.
  - vm_compute. repeat constructor; set_solver.
  - vm_compute. set_solver.
Defined.

(** ["b"], the second key of the example, inserted again at the front:
    it moves there and keeps the value 2. *)
Lemma insert_at_position_existing_key_example :
  exists new s' d' i,
    insert_at_position (VRef 5) "b" (VInt 7) 0 (state_of example_legacy) = (Ok new, s')
    /\ is_dict (heap s') new d'
    /\ i <= length (entries_of (state_of example_legacy) 5)
    /\ ((0 <= 0)%Z ->
        i = Z.to_nat 0 `min` length (entries_of (state_of example_legacy) 5))
    /\ ((0 < 0)%Z ->
        i = Z.to_nat (0 + Z.of_nat (length (entries_of (state_of example_legacy) 5))))
    /\ (1 < i -> d' = <[1 := ("b", VInt 7)]> (entries_of (state_of example_legacy) 5))
    /\ (i <= 1 ->
        d' = take i (entries_of (state_of example_legacy) 5)
               ++ ("b", VInt 2)
                  :: drop i (delete 1 (entries_of (state_of example_legacy) 5))).
Proof.
  apply (insert_at_position_existing_key (state_of example_legacy) (VRef 5)
           (entries_of (state_of example_legacy) 5) "b" (VInt 7) 0 1 (VInt 2)).
  - reflexivity.
  - vm_compute. repeat constructor; set_solver.
  - reflexivity.
Defined.

(** [null] in place of the configuration. *)
Lemma convert_to_1_0_refuses_non_dict_example :
  convert_to_1_0 VNone empty_state = (Raise AttributeError, empty_state).
Proof.
  apply (convert_to_1_0_refuses_non_dict VNone empty_state). left. reflexivity.
Defined.


(** A file that is not among the arguments. *)
Lemma main_touches_only_example :
  files (main Posix ["converter.py"; "cfg.json"] disk_with_backup).2 !! "other.json"
  = files disk_with_backup !! "other.json".
Proof.
  apply (main_touches_only Posix ["converter.py"; "cfg.json"] disk_with_backup "other.json").
  intros p Hp. apply list_elem_of_singleton in Hp as ->. split; discriminate.
Defined.

(** The example, then a path that names no file. *)
Lemma main_stops_at_first_failure_example :
  main Posix ("converter.py" :: ["cfg.json"] ++ "missing.json" :: ["late.json"]) disk
  = (Raise FileNotFoundError,
     logged "loading missing.json" (for_each (migrateFile Posix) ["cfg.json"] disk).2)
  /\ forall q, q <> "missing.json" -> q <> "missing.json" +:+ ".bak" ->
       files (logged "loading missing.json"
                (for_each (migrateFile Posix) ["cfg.json"] disk).2) !! q
       = files (for_each (migrateFile Posix) ["cfg.json"] disk).2 !! q.
Proof.
  apply (main_stops_at_first_failure Posix "converter.py" ["cfg.json"] "missing.json"
           ["late.json"] disk (for_each (migrateFile Posix) ["cfg.json"] disk).2
           FileNotFoundError).
  - vm_compute. reflexivity.
  - vm_compute. reflexivity.
Defined.




